(** * NDVI_Calculate: the synthetic spectral grid and its NDVI analysis

    A shallow embedding of [data_gen.py] and [main.py].

    Number model.  A Python [int] is a [Z].  A Python [float] is an exact
    rational ([Q]): the arithmetic of the program is carried out without
    rounding and without overflow, and the only special value that the
    program itself manufactures, the NaN returned by [ndvi], is the [None]
    of an [option Q].  Equality of floats is [Qeq], written [==].

    Library model.  [random.Random] is an interface: a generator state, a
    seeding function and the two primitive draws [random()] and
    [gauss(mu, sigma)]; [uniform(a, b)] is [a + (b - a) * random()] as in
    CPython.  [math.exp] and [math.sin] are two functions on floats; the only
    thing used about them is that [math.exp] gives equal results on equal
    arguments.

    Limits.  What the interpreter and the libraries refuse is not in the
    model: a float out of range (the square of line 38 overflows for
    dimensions of about 10^154 and more), a field of more than 131072
    characters in the csv reader, a number of more than 4300 digits in
    [str] and [int], a file name that [savefig] cannot write.  The
    hypotheses [ordinary_dimension], [ordinary] and [storable] keep a
    statement inside these limits. *)

From Stdlib Require Import ZArith QArith Qabs Qround Lqa Lia List Bool.
From Stdlib Require Import FinFun Ascii String.
From Stdlib Require Import DecimalString DecimalPos DecimalN DecimalZ DecimalFacts.
Import ListNotations.

Local Open Scope Z_scope.
Local Open Scope Q_scope.

(** ** Exceptions and results *)

Inductive exn : Type :=
| ZeroDivisionError
| IndexError
| KeyError
| ValueError
| TypeError
| AttributeError
| CsvError.

Inductive result (A : Type) : Type :=
| Ok (a : A)
| Raise (e : exn).

Arguments Ok {A} a.
Arguments Raise {A} e.

Definition result_bind {A B} (m : result A) (k : A -> result B) : result B :=
  match m with
  | Ok a => k a
  | Raise e => Raise e
  end.

(** ** Python builtins on numbers *)

Definition Qltb (x y : Q) : bool :=
  match x ?= y with Lt => true | _ => false end.

(** [min(a, b)]: the first argument unless the second is strictly smaller. *)
Definition py_min (a b : Q) : Q := if Qltb b a then b else a.

(** [max(a, b)]: the first argument unless the second is strictly larger. *)
Definition py_max (a b : Q) : Q := if Qltb a b then b else a.

(** [x / y] on floats (and the true division of two ints). *)
Definition py_div (x y : Q) : result Q :=
  if Qeq_bool y 0 then Raise ZeroDivisionError else Ok (x / y).

(** [range(n)] *)
Definition py_range (n : Z) : list Z :=
  map Z.of_nat (seq 0 (Z.to_nat n)).

(** [l[i]] for a list: a negative index counts from the end. *)
Definition py_index {A} (l : list A) (i : Z) : result A :=
  let n := Z.of_nat (List.length l) in
  let j := if (i <? 0)%Z then (i + n)%Z else i in
  if ((j <? 0) || (n <=? j))%Z%bool then Raise IndexError
  else match nth_error l (Z.to_nat j) with
       | Some a => Ok a
       | None => Raise IndexError
       end.

(** ** Formatting integers: [str(n)] and the format spec [03d] *)

Definition str_int (n : Z) : string := NilZero.string_of_int (Z.to_int n).

Fixpoint zeros (n : nat) : string :=
  match n with
  | O => EmptyString
  | S k => String "0" (zeros k)
  end.

(** Left padding with ['0'] up to [width] characters. *)
Definition zfill (width : nat) (s : string) : string :=
  (zeros (width - String.length s) ++ s)%string.

(** [f"{n:03d}"]: the sign, if any, comes first and counts in the width. *)
Definition format_03d (n : Z) : string :=
  if (n <? 0)%Z then String "-" (zfill 2 (str_int (- n)))
  else zfill 3 (str_int n).

(** ** Formatting floats: the format specs [.3f], [.4f] and [6.3f] *)

(** Rounding to the nearest integer, ties to the even one. *)
Definition round_half_even (x : Q) : Z :=
  let f := Qfloor x in
  match Qcompare (x - inject_Z f) (1 # 2) with
  | Lt => f
  | Gt => (f + 1)%Z
  | Eq => if Z.even f then f else (f + 1)%Z
  end.

(** [f"{x:.{prec}f}"] for [prec > 0]: sign, integer part, point and exactly
    [prec] decimals; a negative number that rounds to zero keeps its sign. *)
Definition format_fixed (prec : nat) (x : Q) : string :=
  let scale := (10 ^ Z.of_nat prec)%Z in
  let n := round_half_even (Qabs x * inject_Z scale) in
  let body :=
    (str_int (n / scale) ++ String "." (zfill prec (str_int (n mod scale))))%string in
  if Qltb x 0 then String "-" body else body.

Fixpoint spaces (n : nat) : string :=
  match n with
  | O => EmptyString
  | S k => String " " (spaces k)
  end.

(** Right alignment in a field of [width] characters ([>7], and the default
    alignment of numbers). *)
Definition rjust (width : nat) (s : string) : string :=
  (spaces (width - String.length s) ++ s)%string.

(** A float that may be NaN, formatted with [prec] decimals. *)
Definition format_float (prec : nat) (v : option Q) : string :=
  match v with
  | Some x => format_fixed prec x
  | None => "nan"%string
  end.

(** [sep.join(items)] *)
Fixpoint join (sep : string) (items : list string) : string :=
  match items with
  | [] => EmptyString
  | [x] => x
  | x :: rest => (x ++ sep ++ join sep rest)%string
  end.

(** ** data_gen.py *)

Record SpectralRecord : Type := mkSpectralRecord {
  plot_id : string;
  row : Z;
  col : Z;
  blue_480 : Q;
  green_560 : Q;
  red_665 : Q;
  red_edge_705 : Q;
  red_edge_740 : Q;
  nir_842 : Q;
  nir2_865 : Q;
  swir_1610 : Q;
  swir_2190 : Q
}.

Definition _clamp (value lo hi : Q) : Q := py_max lo (py_min hi value).

(** The interface of [random.Random] that the generator uses. *)
Class RandomSource : Type := {
  rng : Type;
  Random : Z -> rng;
  rng_random : rng -> Q * rng;
  rng_gauss : Q -> Q -> rng -> Q * rng;
  rng_random_range : forall s, 0 <= fst (rng_random s) /\ fst (rng_random s) < 1
}.

(** [math.exp] and [math.sin]; the exponential of equal floats is the
    same float. *)
Class LibM : Type := {
  math_exp : Q -> Q;
  math_sin : Q -> Q;
  math_exp_compat : forall x y, x == y -> math_exp x == math_exp y
}.

(** The nine local band variables of the loop body. *)
Record Bands : Type := mkBands {
  blue : Q;
  green : Q;
  red : Q;
  red_edge : Q;
  red_edge2 : Q;
  nir : Q;
  nir2 : Q;
  swir1 : Q;
  swir2 : Q
}.

(** [f"R{r + 1:03d}C{c + 1:03d}"] *)
Definition plot_id_of (r c : Z) : string :=
  (String "R" (format_03d (r + 1)) ++ String "C" (format_03d (c + 1)))%string.

Section Generator.

Context {RS : RandomSource} {LM : LibM}.

(** Computations that draw from the generator object and may raise. *)
Definition Gen (A : Type) : Type := rng -> result (A * rng).

Definition ret {A} (a : A) : Gen A := fun s => Ok (a, s).

Definition bind {A B} (m : Gen A) (k : A -> Gen B) : Gen B :=
  fun s => match m s with
           | Ok (a, s') => k a s'
           | Raise e => Raise e
           end.

Definition lift {A} (x : result A) : Gen A :=
  fun s => match x with
           | Ok a => Ok (a, s)
           | Raise e => Raise e
           end.

Notation "x <- m ;; k" := (bind m (fun x => k))
  (at level 61, m at next level, right associativity).

Definition random : Gen Q := fun s => Ok (rng_random s).

Definition gauss (mu sigma : Q) : Gen Q := fun s => Ok (rng_gauss mu sigma s).

Definition uniform (a b : Q) : Gen Q :=
  u <- random ;; ret (a + (b - a) * u).

(** A [for] loop (or a list comprehension) that collects one value per item. *)
Fixpoint for_collect {A B} (xs : list A) (body : A -> Gen B) : Gen (list B) :=
  match xs with
  | [] => ret []
  | x :: xs' => b <- body x ;; bs <- for_collect xs' body ;; ret (b :: bs)
  end.

(** A [for] loop that updates an accumulator. *)
Fixpoint for_each {A S} (xs : list A) (body : A -> S -> Gen S) (acc : S) : Gen S :=
  match xs with
  | [] => ret acc
  | x :: xs' => acc' <- body x acc ;; for_each xs' body acc'
  end.

(** Lines 37-40. *)
Definition stress_centers (rows cols : Z) : list (Q * Q * Q) :=
  [ (inject_Z rows * 0.65, inject_Z cols * 0.68, (inject_Z rows * 0.20) ^ 2);
    (inject_Z rows * 0.30, inject_Z cols * 0.25, (inject_Z rows * 0.18) ^ 2) ].

(** Lines 50-52: the loop over the pockets, [stress] being the accumulator. *)
Fixpoint stress_loop (centers : list (Q * Q * Q)) (r c : Z) (stress : Q) : result Q :=
  match centers with
  | [] => Ok stress
  | (cr, cc, sigma2) :: rest =>
      let dist2 := (inject_Z r - cr) ^ 2 + (inject_Z c - cc) ^ 2 in
      result_bind (py_div (- dist2) (2 * sigma2)) (fun e =>
      stress_loop rest r c (stress + math_exp e))
  end.

(** Lines 49-53. *)
Definition cell_stress (rows cols r c : Z) : result Q :=
  result_bind (stress_loop (stress_centers rows cols) r c 0) (fun stress =>
  Ok (_clamp stress 0.0 1.6)).

(** Line 55. *)
Definition cell_fertility (rows cols r c : Z) : result Q :=
  result_bind (py_div (inject_Z r) (inject_Z rows)) (fun fr =>
  result_bind (py_div (inject_Z c) (inject_Z cols)) (fun fc =>
  Ok (0.15 * (1 - fr) + 0.05 * fc))).

(** Lines 49-78: the bands of one cell before the cloud step. *)
Definition cell_bands (rows cols : Z) (row_gradient col_bias : list Q) (r c : Z)
  : Gen Bands :=
  stress <- lift (cell_stress rows cols r c) ;;
  fertility <- lift (cell_fertility rows cols r c) ;;
  u1 <- uniform 0.93 1.07 ;;
  rg <- lift (py_index row_gradient r) ;;
  cb <- lift (py_index col_bias c) ;;
  let illumination := u1 * rg * cb in
  g1 <- gauss 0.0 0.02 ;;
  let target_ndvi := 0.70 + fertility - 0.40 * stress + g1 in
  let target_ndvi := _clamp target_ndvi 0.05 0.92 in
  u2 <- uniform 0.42 0.80 ;;
  let total_reflectance := illumination * u2 in
  let nir := (target_ndvi + 1.0) * total_reflectance / 2.0 in
  let red := total_reflectance - nir in
  g2 <- gauss 0.0 0.006 ;;
  let nir := nir + g2 in
  g3 <- gauss 0.0 0.006 ;;
  let red := red + g3 in
  let nir := _clamp nir 0.01 0.95 in
  let red := _clamp red 0.01 0.95 in
  g4 <- gauss 0.0 0.006 ;;
  let blue := _clamp (0.04 + 0.07 * (1.1 - target_ndvi) + g4) 0.02 0.22 in
  g5 <- gauss 0.0 0.01 ;;
  let green := _clamp (0.20 + 0.12 * (0.9 - stress) + g5) 0.12 0.42 in
  g6 <- gauss 0.0 0.008 ;;
  let red_edge := _clamp (0.18 + 0.40 * target_ndvi + g6) 0.10 0.70 in
  g7 <- gauss 0.0 0.006 ;;
  let red_edge2 :=
    _clamp (red_edge + 0.05 * (target_ndvi - 0.5) + g7) 0.10 0.75 in
  g8 <- gauss 0.0 0.004 ;;
  let nir2 := _clamp (nir + g8 + 0.02 * (1.0 - stress)) 0.05 0.95 in
  g9 <- gauss 0.0 0.01 ;;
  let swir1 := _clamp (0.22 + 0.28 * stress + g9) 0.10 0.70 in
  g10 <- gauss 0.0 0.01 ;;
  let swir2 := _clamp (swir1 + 0.05 * stress + g10) 0.10 0.75 in
  ret (mkBands blue green red red_edge red_edge2 nir nir2 swir1 swir2).

(** Lines 84-92: the in-place scaling of the band variables. *)
Definition cloud_scale (factor_vis factor_nir : Q) (b : Bands) : Bands :=
  mkBands (blue b * factor_vis)
          (green b * factor_vis)
          (red b * factor_vis)
          (red_edge b * factor_vis)
          (red_edge2 b * factor_vis)
          (nir b * factor_nir)
          (nir2 b * factor_nir)
          (swir1 b * (factor_vis * 0.9))
          (swir2 b * (factor_vis * 0.9)).

(** Lines 81-92: the occasional thin-cloud effect. *)
Definition thin_cloud (b : Bands) : Gen Bands :=
  u <- random ;;
  if Qltb u 0.02 then
    factor_vis <- uniform 1.05 1.12 ;;
    factor_nir <- uniform 0.90 0.96 ;;
    ret (cloud_scale factor_vis factor_nir b)
  else ret b.

(** Lines 94-110: the record of one cell. *)
Definition make_record (r c : Z) (b : Bands) : SpectralRecord :=
  mkSpectralRecord (plot_id_of r c) r c
    (blue b) (green b) (red b) (red_edge b) (red_edge2 b)
    (nir b) (nir2 b) (swir1 b) (swir2 b).

(** Lines 49-110: the body of the inner loop. *)
Definition gen_cell (rows cols : Z) (row_gradient col_bias : list Q) (r c : Z)
  : Gen SpectralRecord :=
  b <- cell_bands rows cols row_gradient col_bias r c ;;
  b' <- thin_cloud b ;;
  ret (make_record r c b').

(** Lines 47-110: the two nested loops, [records] being the accumulator. *)
Definition grid_loop (rows cols : Z) (row_gradient col_bias : list Q)
  : list SpectralRecord -> Gen (list SpectralRecord) :=
  for_each (py_range rows) (fun r =>
    for_each (py_range cols) (fun c records =>
      rec <- gen_cell rows cols row_gradient col_bias r c ;;
      ret (records ++ [rec]))).

(** Lines 43-112, run on the generator object [rng]. *)
Definition generate_from (rows cols : Z) : Gen (list SpectralRecord) :=
  col_bias <- for_collect (py_range cols) (fun _ => gauss 1.0 0.01) ;;
  let row_gradient :=
    map (fun r => 1.0 + 0.04 * math_sin (inject_Z r / 11.0)) (py_range rows) in
  grid_loop rows cols row_gradient col_bias [].

(** Lines 29-112. *)
Definition generate_spectral_grid (rows cols seed : Z)
  : result (list SpectralRecord) :=
  match generate_from rows cols (Random seed) with
  | Ok (records, _) => Ok records
  | Raise e => Raise e
  end.

End Generator.

(** ** The [csv] module and text files, as [save_records_csv] and
    [load_records_csv] use them (the excel dialect: comma as delimiter, the
    double quote as quote character, doubled inside a quoted field, minimal
    quoting, line terminator CR LF) *)

Definition CR : ascii := "013"%char.
Definition LF : ascii := "010"%char.
Definition comma : ascii := ","%char.
Definition dquote : ascii := "034"%char.

Definition is_newline (c : ascii) : bool :=
  (Ascii.eqb c CR || Ascii.eqb c LF)%bool.

(** The characters that force a field to be quoted. *)
Definition is_special (c : ascii) : bool :=
  (Ascii.eqb c comma || Ascii.eqb c dquote || is_newline c)%bool.

Fixpoint string_exists (p : ascii -> bool) (s : string) : bool :=
  match s with
  | EmptyString => false
  | String c rest => (p c || string_exists p rest)%bool
  end.

(** The field's characters, each quote character doubled. *)
Fixpoint double_quotes (s : string) : string :=
  match s with
  | EmptyString => EmptyString
  | String c rest =>
      if Ascii.eqb c dquote then String dquote (String dquote (double_quotes rest))
      else String c (double_quotes rest)
  end.

Definition write_field (s : string) : string :=
  if string_exists is_special s
  then String dquote (double_quotes s ++ String dquote EmptyString)
  else s.

(** [writer.writerow(fields)]: what is written to the file.  A record made
    of one empty field is written as a pair of quotes. *)
Definition writerow (fields : list string) : string :=
  let line :=
    match fields with
    | [EmptyString] => String dquote (String dquote EmptyString)
    | _ => join "," (map write_field fields)
    end in
  (line ++ String CR (String LF EmptyString))%string.

(** A value handed to [writerow]: a string, or an int written as [str(n)]. *)
Inductive cell : Type :=
| CStr (s : string)
| CInt (n : Z).

Definition cell_text (v : cell) : string :=
  match v with
  | CStr s => s
  | CInt n => str_int n
  end.

Definition header : list string :=
  [ "plot_id"; "row"; "col"; "blue_480"; "green_560"; "red_665";
    "red_edge_705"; "red_edge_740"; "nir_842"; "nir2_865"; "swir_1610";
    "swir_2190" ]%string.

(** Lines 136-151: the row of one record. *)
Definition record_row (rec : SpectralRecord) : list cell :=
  [ CStr (plot_id rec);
    CInt (row rec);
    CInt (col rec);
    CStr (format_fixed 4 (blue_480 rec));
    CStr (format_fixed 4 (green_560 rec));
    CStr (format_fixed 4 (red_665 rec));
    CStr (format_fixed 4 (red_edge_705 rec));
    CStr (format_fixed 4 (red_edge_740 rec));
    CStr (format_fixed 4 (nir_842 rec));
    CStr (format_fixed 4 (nir2_865 rec));
    CStr (format_fixed 4 (swir_1610 rec));
    CStr (format_fixed 4 (swir_2190 rec)) ].

(** Lines 115-151: the content of the file at [path] after the call.  The
    file is opened with the [newline] argument set to the empty string, so
    what the writer writes is stored as it is. *)
Definition save_records_csv (records : list SpectralRecord) : string :=
  (writerow header
   ++ String.concat EmptyString (map (fun rec => writerow (map cell_text (record_row rec))) records))%string.

(** Reading a text file opened without the [newline] argument: universal
    newlines, CR LF and a lone CR both become LF. *)
Fixpoint universal_newlines (s : string) : string :=
  match s with
  | EmptyString => EmptyString
  | String c rest =>
      if Ascii.eqb c CR then
        match rest with
        | String c' rest' =>
            if Ascii.eqb c' LF then String LF (universal_newlines rest')
            else String LF (universal_newlines rest)
        | EmptyString => String LF EmptyString
        end
      else String c (universal_newlines rest)
  end.

(** Iterating over the file: the lines, each with its LF. *)
Fixpoint split_lines_aux (s : string) (cur : string) : list string :=
  match s with
  | EmptyString =>
      match cur with
      | EmptyString => []
      | _ => [cur]
      end
  | String c rest =>
      if Ascii.eqb c LF then (cur ++ String LF EmptyString)%string :: split_lines_aux rest EmptyString
      else split_lines_aux rest (cur ++ String c EmptyString)
  end.

Definition file_lines (content : string) : list string :=
  split_lines_aux (universal_newlines content) EmptyString.

(** The state machine of [csv.reader]. *)
Inductive ParserState : Type :=
| START_RECORD
| START_FIELD
| IN_FIELD
| IN_QUOTED_FIELD
| QUOTE_IN_QUOTED_FIELD
| EAT_CRNL.

Record Reader : Type := mkReader {
  state : ParserState;
  field : string;
  fields : list string
}.

Definition parse_add_char (c : ascii) (rd : Reader) : Reader :=
  mkReader (state rd) (field rd ++ String c EmptyString) (fields rd).

Definition parse_save_field (rd : Reader) : Reader :=
  mkReader (state rd) EmptyString (fields rd ++ [field rd]).

Definition set_state (st : ParserState) (rd : Reader) : Reader :=
  mkReader st (field rd) (fields rd).

(** One character of a line, or the end of the line ([None]). *)
Definition parse_process_char (c : option ascii) (rd : Reader) : result Reader :=
  let newline_or_eol :=
    match c with
    | None => true
    | Some ch => is_newline ch
    end in
  let after_newline :=
    match c with
    | None => START_RECORD
    | Some _ => EAT_CRNL
    end in
  let start_field (rd : Reader) : result Reader :=
    if newline_or_eol then Ok (set_state after_newline (parse_save_field rd))
    else match c with
         | Some ch =>
             if Ascii.eqb ch dquote then Ok (set_state IN_QUOTED_FIELD rd)
             else if Ascii.eqb ch comma then Ok (parse_save_field rd)
             else Ok (set_state IN_FIELD (parse_add_char ch rd))
         | None => Ok rd
         end in
  match state rd with
  | START_RECORD =>
      match c with
      | None => Ok rd
      | Some ch =>
          if is_newline ch then Ok (set_state EAT_CRNL rd)
          else start_field (set_state START_FIELD rd)
      end
  | START_FIELD => start_field rd
  | IN_FIELD =>
      if newline_or_eol then Ok (set_state after_newline (parse_save_field rd))
      else match c with
           | Some ch =>
               if Ascii.eqb ch comma then Ok (set_state START_FIELD (parse_save_field rd))
               else Ok (parse_add_char ch rd)
           | None => Ok rd
           end
  | IN_QUOTED_FIELD =>
      match c with
      | None => Ok rd
      | Some ch =>
          if Ascii.eqb ch dquote then Ok (set_state QUOTE_IN_QUOTED_FIELD rd)
          else Ok (parse_add_char ch rd)
      end
  | QUOTE_IN_QUOTED_FIELD =>
      match c with
      | Some ch =>
          if Ascii.eqb ch dquote then Ok (set_state IN_QUOTED_FIELD (parse_add_char ch rd))
          else if Ascii.eqb ch comma then Ok (set_state START_FIELD (parse_save_field rd))
          else if is_newline ch then Ok (set_state EAT_CRNL (parse_save_field rd))
          else Ok (set_state IN_FIELD (parse_add_char ch rd))
      | None => Ok (set_state START_RECORD (parse_save_field rd))
      end
  | EAT_CRNL =>
      match c with
      | None => Ok (set_state START_RECORD rd)
      | Some ch => if is_newline ch then Ok rd else Raise CsvError
      end
  end.

Fixpoint parse_line (line : string) (rd : Reader) : result Reader :=
  match line with
  | EmptyString => parse_process_char None rd
  | String c rest =>
      result_bind (parse_process_char (Some c) rd) (parse_line rest)
  end.

(** [next(reader)]: the next row and the lines left, [None] at the end of
    the input. *)
Fixpoint reader_next_aux (lines : list string) (rd : Reader)
  : result (option (list string) * list string) :=
  match lines with
  | [] =>
      match field rd, state rd with
      | EmptyString, IN_QUOTED_FIELD => Ok (Some (fields (parse_save_field rd)), [])
      | EmptyString, _ => Ok (None, [])
      | _, _ => Ok (Some (fields (parse_save_field rd)), [])
      end
  | line :: rest =>
      result_bind (parse_line line rd) (fun rd' =>
      match state rd' with
      | START_RECORD => Ok (Some (fields rd'), rest)
      | _ => reader_next_aux rest rd'
      end)
  end.

Definition reader_next (lines : list string)
  : result (option (list string) * list string) :=
  reader_next_aux lines (mkReader START_RECORD EmptyString []).

(** A row of [csv.DictReader]: the value is [None] for a missing field. *)
Definition dict : Type := list (string * option string).

Fixpoint dict_set (d : dict) (k : string) (v : option string) : dict :=
  match d with
  | [] => [(k, v)]
  | (k', v') :: rest =>
      if String.eqb k' k then (k', v) :: rest else (k', v') :: dict_set rest k v
  end.

Fixpoint dict_get (d : dict) (k : string) : result (option string) :=
  match d with
  | [] => Raise KeyError
  | (k', v) :: rest => if String.eqb k' k then Ok v else dict_get rest k
  end.

(** [dict(zip(fieldnames, row))], then the missing fields set to [None];
    the fields beyond the header go under the key [None], which no lookup
    by name reaches. *)
Fixpoint dict_of_row (fieldnames : list string) (row : list string) (d : dict) : dict :=
  match fieldnames, row with
  | k :: ks, v :: vs => dict_of_row ks vs (dict_set d k (Some v))
  | _, _ => d
  end.

Definition row_dict (fieldnames row : list string) : dict :=
  fold_left (fun d k => dict_set d k None)
            (skipn (List.length row) fieldnames)
            (dict_of_row fieldnames row []).

(** All the rows of the reader; [fuel] bounds the number of rows read and
    the number of lines is enough. *)
Fixpoint reader_rows (fuel : nat) (lines : list string) : result (list (list string)) :=
  match fuel with
  | O => Ok []
  | S fuel' =>
      result_bind (reader_next lines) (fun nx =>
      match nx with
      | (None, _) => Ok []
      | (Some r, rest) =>
          result_bind (reader_rows fuel' rest) (fun rs => Ok (r :: rs))
      end)
  end.

(** Iterating over [csv.DictReader(f)]: the first row gives the field names,
    empty rows are skipped. *)
Definition dict_reader (lines : list string) : result (list dict) :=
  result_bind (reader_rows (S (List.length lines)) lines) (fun rows =>
  match rows with
  | [] => Ok []
  | fieldnames :: data =>
      Ok (map (row_dict fieldnames)
              (filter (fun r => match r with [] => false | _ => true end) data))
  end).

(** ** Parsing numbers: [int(s)] and [float(s)] on plain decimal numerals
    (an optional sign, digits, and for a float an optional point and more
    digits); the other spellings that Python accepts (blanks, underscores,
    exponents, [inf], [nan]) are not in the model and are rejected. *)

Definition digit_value (c : ascii) : option Z :=
  let n := Z.of_nat (nat_of_ascii c) in
  if ((48 <=? n) && (n <=? 57))%Z%bool then Some (n - 48)%Z else None.

(** The value of a run of digits read after [acc], and how many were read. *)
Fixpoint parse_digits (s : string) (acc : Z) (count : nat) : option (Z * nat) :=
  match s with
  | EmptyString => Some (acc, count)
  | String c rest =>
      match digit_value c with
      | Some d => parse_digits rest (acc * 10 + d)%Z (S count)
      | None => None
      end
  end.

Definition split_sign (s : string) : bool * string :=
  match s with
  | String c rest =>
      if Ascii.eqb c "-" then (true, rest)
      else if Ascii.eqb c "+" then (false, rest)
      else (false, s)
  | EmptyString => (false, s)
  end.

Definition parse_int (s : string) : result Z :=
  let (neg, body) := split_sign s in
  match parse_digits body 0 0 with
  | Some (n, S _) => Ok (if neg then (- n)%Z else n)
  | _ => Raise ValueError
  end.

(** The part of [s] before the first point, and the part after it if any. *)
Fixpoint split_point (s : string) : string * option string :=
  match s with
  | EmptyString => (EmptyString, None)
  | String c rest =>
      if Ascii.eqb c "." then (EmptyString, Some rest)
      else let (a, b) := split_point rest in (String c a, b)
  end.

Definition parse_float (s : string) : result Q :=
  let (neg, body) := split_sign s in
  let (ip, fp) := split_point body in
  let fp := match fp with Some f => f | None => EmptyString end in
  match parse_digits ip 0 0, parse_digits fp 0 0 with
  | Some (i, ni), Some (f, nf) =>
      match (ni + nf)%nat with
      | O => Raise ValueError
      | S _ =>
          let v := inject_Z i + inject_Z f / inject_Z (10 ^ Z.of_nat nf) in
          Ok (if neg then - v else v)
      end
  | _, _ => Raise ValueError
  end.

(** [int(row[key])] and [float(row[key])]; the argument [None] is a
    [TypeError]. *)
Definition int_of (d : dict) (key : string) : result Z :=
  result_bind (dict_get d key) (fun v =>
  match v with
  | Some s => parse_int s
  | None => Raise TypeError
  end).

Definition float_of (d : dict) (key : string) : result Q :=
  result_bind (dict_get d key) (fun v =>
  match v with
  | Some s => parse_float s
  | None => Raise TypeError
  end).

(** Lines 160-173.  A [plot_id] that would be [None] has no place in
    [SpectralRecord]; the model raises [TypeError] there. *)
Definition load_record (d : dict) : result SpectralRecord :=
  result_bind (dict_get d "plot_id") (fun pid =>
  result_bind (int_of d "row") (fun r =>
  result_bind (int_of d "col") (fun c =>
  result_bind (float_of d "blue_480") (fun b1 =>
  result_bind (float_of d "green_560") (fun b2 =>
  result_bind (float_of d "red_665") (fun b3 =>
  result_bind (float_of d "red_edge_705") (fun b4 =>
  result_bind (float_of d "red_edge_740") (fun b5 =>
  result_bind (float_of d "nir_842") (fun b6 =>
  result_bind (float_of d "nir2_865") (fun b7 =>
  result_bind (float_of d "swir_1610") (fun b8 =>
  result_bind (float_of d "swir_2190") (fun b9 =>
  match pid with
  | Some p => Ok (mkSpectralRecord p r c b1 b2 b3 b4 b5 b6 b7 b8 b9)
  | None => Raise TypeError
  end)))))))))))).

Fixpoint load_rows (ds : list dict) : result (list SpectralRecord) :=
  match ds with
  | [] => Ok []
  | d :: rest =>
      result_bind (load_record d) (fun rec =>
      result_bind (load_rows rest) (fun recs => Ok (rec :: recs)))
  end.

(** Lines 154-175, from the content of the file at [path].  The file is
    opened without the [newline] argument. *)
Definition load_records_csv (content : string) : result (list SpectralRecord) :=
  result_bind (dict_reader (file_lines content)) load_rows.

(** ** main.py *)

(** The NaN of [float("nan")] is [None]. *)
Definition ndvi (red nir : Q) : option Q :=
  let denom := nir + red in
  if Qeq_bool denom 0 then None
  else Some ((nir - red) / denom).

Definition NDVIResult : Type := (Z * Z * string * option Q)%type.

(** Lines 27-28: the tuple appended for one record. *)
Definition ndvi_result (rec : SpectralRecord) : NDVIResult :=
  let value := ndvi (red_665 rec) (nir_842 rec) in
  (row rec, col rec, plot_id rec, value).

(** Line 30: [math.isfinite] keeps the values that are not NaN. *)
Fixpoint valid_values (results : list NDVIResult) : list Q :=
  match results with
  | [] => []
  | (_, _, _, Some v) :: rest => v :: valid_values rest
  | (_, _, _, None) :: rest => valid_values rest
  end.

(** [sum(valid)] *)
Definition py_sum (l : list Q) : Q := fold_left Qplus l 0.

(** [min(valid)] and [max(valid)] on a non-empty list. *)
Definition py_min_list (x : Q) (l : list Q) : Q := fold_left py_min l x.
Definition py_max_list (x : Q) (l : list Q) : Q := fold_left py_max l x.

(** Lines 30-33: the three aggregates, NaN when there is no valid value. *)
Record Summary : Type := mkSummary {
  mean_ndvi : option Q;
  lo : option Q;
  hi : option Q
}.

Definition field_summary (results : list NDVIResult) : Summary :=
  let valid := valid_values results in
  match valid with
  | [] => mkSummary None None None
  | v :: rest =>
      mkSummary (Some (py_sum valid / inject_Z (Z.of_nat (List.length valid))))
                (Some (py_min_list v rest))
                (Some (py_max_list v rest))
  end.

(** Line 47: a NaN is not below the threshold. *)
Definition stressed_plots (results : list NDVIResult) : list string :=
  flat_map (fun res : NDVIResult =>
    match res with
    | (_, _, plot_id, Some value) => if Qltb value 0.30 then [plot_id] else []
    | (_, _, _, None) => []
    end) results.

(** Line 40. *)
Definition preview_line (res : NDVIResult) : string :=
  match res with
  | (r, c, plot_id, value) =>
      (rjust 7 plot_id ++ "  r=" ++ format_03d (r + 1) ++ " c=" ++ format_03d (c + 1)
       ++ "  " ++ rjust 6 (format_float 3 value))%string
  end.

(** The heatmap handed to [imshow]: a NaN cell is [None]. *)
Definition Heatmap : Type := list (list (option Q)).

(** The program state that [main.py] can touch: the [SpectralRecord] objects
    (mutable dataclass instances, named by their address), what was printed,
    and the image files written. *)
Record World : Type := mkWorld {
  objects : list SpectralRecord;
  stdout : list string;
  files : list (string * Heatmap)
}.

Definition Prog (A : Type) : Type := World -> result A * World.

Definition pret {A} (a : A) : Prog A := fun w => (Ok a, w).

Definition pbind {A B} (m : Prog A) (k : A -> Prog B) : Prog B :=
  fun w => match m w with
           | (Ok a, w') => k a w'
           | (Raise e, w') => (Raise e, w')
           end.

Notation "x <~ m ;; k" := (pbind m (fun x => k))
  (at level 61, m at next level, right associativity).

(** Reading the attributes of the object at an address; an item of
    [records] that is no [SpectralRecord] has none of them. *)
Definition deref (l : nat) : Prog SpectralRecord :=
  fun w => match nth_error (objects w) l with
           | Some rec => (Ok rec, w)
           | None => (Raise AttributeError, w)
           end.

(** Overwriting the object at an address: what any attribute assignment
    [rec.f = v] would be.  Neither [run_example] nor [visualize_ndvi] uses it. *)
Fixpoint list_set {A} (l : list A) (i : nat) (a : A) : list A :=
  match l, i with
  | [], _ => []
  | _ :: t, O => a :: t
  | x :: t, S j => x :: list_set t j a
  end.

Definition store (l : nat) (rec : SpectralRecord) : Prog unit :=
  fun w => (Ok tt, mkWorld (list_set (objects w) l rec) (stdout w) (files w)).

Definition print (line : string) : Prog unit :=
  fun w => (Ok tt, mkWorld (objects w) (stdout w ++ [line]) (files w)).

(** [plt.savefig], for a file name that the library can write, as the
    default [ndvi_heatmap.png]; its errors on other names are not in the
    model. *)
Definition savefig (outfile : string) (grid : Heatmap) : Prog unit :=
  fun w => (Ok tt, mkWorld (objects w) (stdout w) (files w ++ [(outfile, grid)])).

Fixpoint pfor_each {A S} (xs : list A) (body : A -> S -> Prog S) (acc : S) : Prog S :=
  match xs with
  | [] => pret acc
  | x :: xs' => acc' <~ body x acc ;; pfor_each xs' body acc'
  end.

Definition pwhen (b : bool) (m : Prog unit) : Prog unit :=
  if b then m else pret tt.

(** Lines 21-53; [records] is the sequence of the objects' addresses. *)
Definition run_example (records : list nat) (preview_count : Z)
  : Prog (list NDVIResult) :=
  results <~ pfor_each records (fun l results =>
               rec <~ deref l ;;
               pret (results ++ [ndvi_result rec])) [] ;;
  let summary := field_summary results in
  let len_results := Z.of_nat (List.length results) in
  let shown := Z.min preview_count len_results in
  _ <~ print ("Plot  NDVI (showing " ++ str_int shown ++ "/"
              ++ str_int len_results ++ ")")%string ;;
  _ <~ pfor_each (firstn (Z.to_nat preview_count) results)
         (fun res _ => print (preview_line res)) tt ;;
  _ <~ pwhen (shown <? len_results)%Z
         (print ("... " ++ str_int (len_results - shown)
                 ++ " more plots not shown")%string) ;;
  _ <~ print (String "010" "Field summary:") ;;
  _ <~ print ("mean=" ++ format_float 3 (mean_ndvi summary)
              ++ "  min=" ++ format_float 3 (lo summary)
              ++ "  max=" ++ format_float 3 (hi summary))%string ;;
  let stressed := stressed_plots results in
  _ <~ match stressed with
       | _ :: _ => print ("Potentially stressed plots: " ++ join ", " stressed)%string
       | [] => print "No plots under the 0.30 stress threshold."
       end ;;
  pret results.

(** Line 64: [grid[r][c] = value], the guard has put [r] and [c] in range. *)
Definition grid_set (grid : Heatmap) (r c : Z) (value : option Q) : Heatmap :=
  match nth_error grid (Z.to_nat r) with
  | Some line => list_set grid (Z.to_nat r) (list_set line (Z.to_nat c) value)
  | None => grid
  end.

(** Lines 56-74; the figure saved is determined by the grid. *)
Definition visualize_ndvi (results : list NDVIResult) (rows cols : Z)
           (outfile : string) : Prog unit :=
  let grid : Heatmap := map (fun _ => map (fun _ => None) (py_range cols)) (py_range rows) in
  let grid :=
    fold_left (fun grid (res : NDVIResult) =>
      match res with
      | (r, c, _, value) =>
          if ((0 <=? r) && (r <? rows) && (0 <=? c) && (c <? cols))%Z%bool
          then grid_set grid r c value
          else grid
      end) results grid in
  savefig outfile grid.

(** *** [main] (lines 77-98)

    Besides the objects, the output and the figures, [main] touches one
    file, the dataset at [data_path]; opening a file that is not there is
    the one exception that does not come from the code modelled above. *)

Record Session : Type := mkSession {
  world : World;
  dataset : option string
}.

Inductive main_exn : Type :=
| PyExn (e : exn)
| FileNotFoundError.

Definition Main (A : Type) : Type := Session -> (A + main_exn) * Session.

Definition mret {A} (a : A) : Main A := fun s => (inl a, s).

Definition mbind {A B} (m : Main A) (k : A -> Main B) : Main B :=
  fun s => match m s with
           | (inl a, s') => k a s'
           | (inr e, s') => (inr e, s')
           end.

Notation "x <== m ;; k" := (mbind m (fun x => k))
  (at level 61, m at next level, right associativity).

(** A computation on the world, run inside [main]. *)
Definition in_world {A} (m : Prog A) : Main A :=
  fun s => match m (world s) with
           | (Ok a, w) => (inl a, mkSession w (dataset s))
           | (Raise e, w) => (inr (PyExn e), mkSession w (dataset s))
           end.

Definition of_result {A} (r : result A) : Main A :=
  fun s => match r with
           | Ok a => (inl a, s)
           | Raise e => (inr (PyExn e), s)
           end.

(** [data_path.exists()] *)
Definition dataset_exists : Main bool :=
  fun s => (inl (match dataset s with Some _ => true | None => false end), s).

(** What [save_records_csv(records, data_path)] does to the file. *)
Definition write_dataset (content : string) : Main unit :=
  fun s => (inl tt, mkSession (world s) (Some content)).

(** [load_records_csv(data_path)]: the file is opened and read; the records
    of the list returned are new objects. *)
Definition read_dataset : Main (list SpectralRecord) :=
  fun s => match dataset s with
           | Some content => of_result (load_records_csv content) s
           | None => (inr FileNotFoundError, s)
           end.

Definition new_objects (recs : list SpectralRecord) : Prog (list nat) :=
  fun w => (Ok (seq (List.length (objects w)) (List.length recs)),
            mkWorld (objects w ++ recs) (stdout w) (files w)).

Definition load_dataset : Main (list nat) :=
  recs <== read_dataset ;; in_world (new_objects recs).

(** [max(xs)] on ints; the empty sequence is a [ValueError]. *)
Definition py_max_int (xs : list Z) : result Z :=
  match xs with
  | [] => Raise ValueError
  | x :: rest => Ok (fold_left (fun m v => if (m <? v)%Z then v else m) rest x)
  end.

(** [max(f(rec) for rec in records)], the attribute read from each object. *)
Definition max_attr (f : SpectralRecord -> Z) (records : list nat) : Prog Z :=
  values <~ pfor_each records
              (fun l values => rec <~ deref l ;; pret (values ++ [f rec])) [] ;;
  fun w => (py_max_int values, w).

Section MainProgram.

Context {RS : RandomSource} {LM : LibM}.

(** Lines 80-83. *)
Definition regenerate : Main unit :=
  records_new <== of_result (generate_spectral_grid 140 140 2027) ;;
  _ <== write_dataset (save_records_csv records_new) ;;
  in_world (print "Generated synthetic dataset at data/synthetic_field_multispec.csv").

(** Lines 88-92: only a [KeyError] is caught. *)
Definition load_or_regenerate : Main (list nat) :=
  fun s => match load_dataset s with
           | (inr (PyExn KeyError), s') =>
               (_ <== regenerate ;; load_dataset) s'
           | other => other
           end.

(** Lines 77-98. *)
Definition main : Main unit :=
  present <== dataset_exists ;;
  _ <== (if present then mret tt else regenerate) ;;
  records <== load_or_regenerate ;;
  max_row <== in_world (max_attr row records) ;;
  let rows := (max_row + 1)%Z in
  max_col <== in_world (max_attr col records) ;;
  let cols := (max_col + 1)%Z in
  results <== in_world (run_example records 80) ;;
  in_world (visualize_ndvi results rows cols "ndvi_heatmap.png").

End MainProgram.

(** ** Vocabulary of the statements *)

Definition bands_of (rec : SpectralRecord) : Bands :=
  mkBands (blue_480 rec) (green_560 rec) (red_665 rec) (red_edge_705 rec)
          (red_edge_740 rec) (nir_842 rec) (nir2_865 rec) (swir_1610 rec)
          (swir_2190 rec).

(** Every band inside the interval it is clamped to. *)
Definition within_clamp (b : Bands) : Prop :=
  (0.02 <= blue b /\ blue b <= 0.22) /\
  (0.12 <= green b /\ green b <= 0.42) /\
  (0.01 <= red b /\ red b <= 0.95) /\
  (0.10 <= red_edge b /\ red_edge b <= 0.70) /\
  (0.10 <= red_edge2 b /\ red_edge2 b <= 0.75) /\
  (0.01 <= nir b /\ nir b <= 0.95) /\
  (0.05 <= nir2 b /\ nir2 b <= 0.95) /\
  (0.10 <= swir1 b /\ swir1 b <= 0.70) /\
  (0.10 <= swir2 b /\ swir2 b <= 0.75).

(** The cloud flag drawn when the generator is in state [s]. *)
Definition cloud_fires {RS : RandomSource} (s : rng) : bool :=
  Qltb (fst (rng_random s)) 0.02.

Definition position (rec : SpectralRecord) : Z * Z := (row rec, col rec).

(** The cells of a grid, row by row. *)
Definition row_major (rows cols : Z) : list (Z * Z) :=
  flat_map (fun r => map (fun c => (r, c)) (py_range cols)) (py_range rows).

(** Dimensions that a machine can hold: the lists of lines 43-44 can be
    built, and the products and squares of lines 38-39 are far inside the
    floats. *)
Definition dimension_limit : Z := 1000000.

Definition ordinary_dimension (n : Z) : Prop := (Z.abs n <= dimension_limit)%Z.

(** The stress of a cell as the specification words it: two Gaussian
    pockets, summed, and the sum clamped to an interval.  The clamp is
    written here by cases, without the function of the program: below the
    interval the lower bound, above it the upper bound, inside it the
    number itself. *)
Definition pocket {LM : LibM} (r c : Z) (cr cc sigma2 : Q) : Q :=
  math_exp (- ((inject_Z r - cr) ^ 2 + (inject_Z c - cc) ^ 2) / (2 * sigma2)).

Definition spec_clamp (lo hi x : Q) : Q :=
  if Qlt_le_dec x lo then lo
  else if Qlt_le_dec hi x then hi
  else x.

Definition spec_stress {LM : LibM} (rows cols r c : Z) : Q :=
  spec_clamp 0.0 1.6
    (pocket r c (0.65 * inject_Z rows) (0.68 * inject_Z cols)
                ((0.20 * inject_Z rows) ^ 2)
     + pocket r c (0.30 * inject_Z rows) (0.25 * inject_Z cols)
                  ((0.18 * inject_Z rows) ^ 2)).

(** Reading a plot identifier back.  The number that a string of decimal
    digits spells, leading zeros allowed: *)
Definition decimal_value (s : string) : option N :=
  option_map N.of_uint (NilEmpty.uint_of_string s).

(** the part of a string before its first [C], and the part after it: *)
Fixpoint split_at_C (s : string) : string * string :=
  match s with
  | EmptyString => (EmptyString, EmptyString)
  | String c rest =>
      if Ascii.eqb c "C" then (EmptyString, rest)
      else let (a, b) := split_at_C rest in (String c a, b)
  end.

(** and the two numbers of an identifier, its first letter dropped. *)
Definition parse_plot_id (s : string) : option (N * N) :=
  match s with
  | String _ rest =>
      let (a, b) := split_at_C rest in
      match decimal_value a, decimal_value b with
      | Some r, Some c => Some (r, c)
      | _, _ => None
      end
  | EmptyString => None
  end.

Definition position_eq_dec (p q : Z * Z) : {p = q} + {p <> q}.
Proof. decide equality; apply Z.eq_dec. Defined.

(** What the cloud step, run in state [s] on the bands [base], leaves in
    [b]: [base] scaled by two factors in their ranges when its flag fires,
    [base] itself when it does not. *)
Definition cloud_outcome {RS : RandomSource} (base : Bands) (s : rng) (b : Bands)
  : Prop :=
  if cloud_fires s then
    exists factor_vis factor_nir,
      (1.05 <= factor_vis /\ factor_vis <= 1.12) /\
      (0.90 <= factor_nir /\ factor_nir <= 0.96) /\
      b = cloud_scale factor_vis factor_nir base
  else b = base.

(** What the loop body guarantees about the record of cell [(r, c)]: its
    identity, and bands that are the output of the cloud step on bands that
    lie within their clamp intervals. *)
Definition cell_post {RS : RandomSource} (r c : Z) (rec : SpectralRecord) : Prop :=
  row rec = r /\ col rec = c /\ plot_id rec = plot_id_of r c /\
  exists base s s',
    within_clamp base /\
    thin_cloud base s = Ok (bands_of rec, s') /\
    cloud_outcome base s (bands_of rec).

(** A computation that leaves the [SpectralRecord] objects as they are,
    whatever it prints or saves and whether or not it raises. *)
Definition frame {A} (m : Prog A) : Prop :=
  forall w, objects (snd (m w)) = objects w.

(** Two runs, on two generators whose states are related by [R], that end
    alike: with the same value and related states, or with the same
    exception. *)
Definition same_outcome {RS1 RS2 : RandomSource} (R : @rng RS1 -> @rng RS2 -> Prop)
           {A} (o1 : result (A * @rng RS1)) (o2 : result (A * @rng RS2)) : Prop :=
  match o1, o2 with
  | Ok (a1, t1), Ok (a2, t2) => a1 = a2 /\ R t1 t2
  | Raise e1, Raise e2 => e1 = e2
  | _, _ => False
  end.

Definition agree {RS1 RS2 : RandomSource} (R : @rng RS1 -> @rng RS2 -> Prop)
           {A} (m1 : @Gen RS1 A) (m2 : @Gen RS2 A) : Prop :=
  forall s1 s2, R s1 s2 -> same_outcome R (m1 s1) (m2 s2).

(** The value of a decimal numeral read after [acc]. *)
Fixpoint uint_value (d : Decimal.uint) (acc : Z) : Z :=
  match d with
  | Decimal.Nil => acc
  | Decimal.D0 d => uint_value d (acc * 10 + 0)
  | Decimal.D1 d => uint_value d (acc * 10 + 1)
  | Decimal.D2 d => uint_value d (acc * 10 + 2)
  | Decimal.D3 d => uint_value d (acc * 10 + 3)
  | Decimal.D4 d => uint_value d (acc * 10 + 4)
  | Decimal.D5 d => uint_value d (acc * 10 + 5)
  | Decimal.D6 d => uint_value d (acc * 10 + 6)
  | Decimal.D7 d => uint_value d (acc * 10 + 7)
  | Decimal.D8 d => uint_value d (acc * 10 + 8)
  | Decimal.D9 d => uint_value d (acc * 10 + 9)
  end%Z.

(** [x] rounded to [prec] decimals, ties to the even last digit. *)
Definition round_decimals (prec : nat) (x : Q) : Q :=
  let scale := inject_Z (10 ^ Z.of_nat prec) in
  let v := inject_Z (round_half_even (Qabs x * scale)) / scale in
  if Qltb x 0 then - v else v.

(** A string that the writer leaves unquoted. *)
Definition plain (s : string) : Prop := string_exists is_special s = false.

(** A string that fits on one line. *)
Definition no_newline (s : string) : Prop := string_exists is_newline s = false.

(** The text made of the given lines, each ended by CR LF. *)
Fixpoint crlf_text (lines : list string) : string :=
  match lines with
  | [] => EmptyString
  | line :: rest => (line ++ String CR (String LF (crlf_text rest)))%string
  end.

(** A row that the writer leaves unquoted: at least two plain fields. *)
Definition plain_row (r : list string) : Prop :=
  (2 <= List.length r)%nat /\ Forall plain r.

Definition row_line (r : list string) : string :=
  (join "," r ++ String LF EmptyString)%string.

(** The record read back: same identity, bands rounded to four decimals. *)
Definition same_to_4_decimals (rec loaded : SpectralRecord) : Prop :=
  plot_id loaded = plot_id rec /\ row loaded = row rec /\ col loaded = col rec /\
  blue_480 loaded == round_decimals 4 (blue_480 rec) /\
  green_560 loaded == round_decimals 4 (green_560 rec) /\
  red_665 loaded == round_decimals 4 (red_665 rec) /\
  red_edge_705 loaded == round_decimals 4 (red_edge_705 rec) /\
  red_edge_740 loaded == round_decimals 4 (red_edge_740 rec) /\
  nir_842 loaded == round_decimals 4 (nir_842 rec) /\
  nir2_865 loaded == round_decimals 4 (nir2_865 rec) /\
  swir_1610 loaded == round_decimals 4 (swir_1610 rec) /\
  swir_2190 loaded == round_decimals 4 (swir_2190 rec).

(** The fields written for a record. *)
Definition record_fields (rec : SpectralRecord) : list string :=
  map cell_text (record_row rec).

(** ** Vocabulary of the further properties *)

(** Two floats that are the same number, or both NaN. *)
Definition same_float (a b : option Q) : Prop :=
  match a, b with
  | Some x, Some y => x == y
  | None, None => True
  | _, _ => False
  end.

(** The bounds of every band, the cloud step included. *)
Definition within_envelope (rec : SpectralRecord) : Prop :=
  (0.02 <= blue_480 rec /\ blue_480 rec <= 0.2464) /\
  (0.12 <= green_560 rec /\ green_560 rec <= 0.4704) /\
  (0.01 <= red_665 rec /\ red_665 rec <= 1.064) /\
  (0.10 <= red_edge_705 rec /\ red_edge_705 rec <= 0.784) /\
  (0.10 <= red_edge_740 rec /\ red_edge_740 rec <= 0.84) /\
  (0.009 <= nir_842 rec /\ nir_842 rec <= 0.95) /\
  (0.045 <= nir2_865 rec /\ nir2_865 rec <= 0.95) /\
  (0.0945 <= swir_1610 rec /\ swir_1610 rec <= 0.7056) /\
  (0.0945 <= swir_2190 rec /\ swir_2190 rec <= 0.756).

(** The record read back: same identity, every band within half a unit of
    the fourth decimal of the band saved. *)
Definition close_to_4_decimals (rec loaded : SpectralRecord) : Prop :=
  plot_id loaded = plot_id rec /\ row loaded = row rec /\ col loaded = col rec /\
  Qabs (blue_480 loaded - blue_480 rec) <= 5 # 100000 /\
  Qabs (green_560 loaded - green_560 rec) <= 5 # 100000 /\
  Qabs (red_665 loaded - red_665 rec) <= 5 # 100000 /\
  Qabs (red_edge_705 loaded - red_edge_705 rec) <= 5 # 100000 /\
  Qabs (red_edge_740 loaded - red_edge_740 rec) <= 5 # 100000 /\
  Qabs (nir_842 loaded - nir_842 rec) <= 5 # 100000 /\
  Qabs (nir2_865 loaded - nir2_865 rec) <= 5 # 100000 /\
  Qabs (swir_1610 loaded - swir_1610 rec) <= 5 # 100000 /\
  Qabs (swir_2190 loaded - swir_2190 rec) <= 5 # 100000.

(** No band below zero. *)
Definition nonnegative (rec : SpectralRecord) : Prop :=
  0 <= blue_480 rec /\ 0 <= green_560 rec /\ 0 <= red_665 rec /\
  0 <= red_edge_705 rec /\ 0 <= red_edge_740 rec /\ 0 <= nir_842 rec /\
  0 <= nir2_865 rec /\ 0 <= swir_1610 rec /\ 0 <= swir_2190 rec.

(** Text that every reader and writer takes: printable characters of
    ASCII only, and no more of them than the largest field that the csv
    reader accepts. *)
Definition is_printable (ch : ascii) : bool :=
  ((32 <=? nat_of_ascii ch) && (nat_of_ascii ch <=? 126))%nat.

Definition ordinary (s : string) : Prop :=
  string_exists (fun ch => negb (is_printable ch)) s = false /\
  (Z.of_nat (String.length s) <= 131072)%Z.

(** A record that the codec can write and read: an identifier that needs
    no quoting and is ordinary text, a row and a column of no more than
    4300 digits, the most that [str] and [int] convert. *)
Definition storable (rec : SpectralRecord) : Prop :=
  plain (plot_id rec) /\ ordinary (plot_id rec) /\
  (Z.abs (row rec) < 10 ^ 4300)%Z /\ (Z.abs (col rec) < 10 ^ 4300)%Z.

(** A letter of ASCII; [int] refuses a string that starts with one. *)
Definition is_letter (ch : ascii) : bool :=
  let n := nat_of_ascii ch in
  (((65 <=? n) && (n <=? 90)) || ((97 <=? n) && (n <=? 122)))%nat.


(** The cell of a heatmap, when the grid has it. *)
Definition cell_of (grid : Heatmap) (r c : Z) : option (option Q) :=
  match nth_error grid (Z.to_nat r) with
  | Some line => nth_error line (Z.to_nat c)
  | None => None
  end.

(** The value of the last tuple of [results] that names cell [(r, c)],
    [init] when none does. *)
Definition last_value (init : option Q) (results : list NDVIResult) (r c : Z)
  : option Q :=
  fold_left (fun acc (res : NDVIResult) =>
               match res with
               | (r', c', _, v) => if ((r' =? r) && (c' =? c))%Z%bool then v else acc
               end) results init.

(** A grid of [rows] lines of [cols] cells. *)
Definition shaped (rows cols : Z) (grid : Heatmap) : Prop :=
  List.length grid = Z.to_nat rows /\
  Forall (fun line => List.length line = Z.to_nat cols) grid.

(** The loop of lines 62-64. *)
Definition fill (rows cols : Z) (results : list NDVIResult) (grid : Heatmap) : Heatmap :=
  fold_left (fun grid (res : NDVIResult) =>
      match res with
      | (r, c, _, value) =>
          if ((0 <=? r) && (r <? rows) && (0 <=? c) && (c <? cols))%Z%bool
          then grid_set grid r c value
          else grid
      end) results grid.

(** A computation that only adds lines to the output. *)
Definition prints_only {A} (m : Prog A) : Prop :=
  forall w, exists out,
    snd (m w) = mkWorld (objects w) (stdout w ++ out) (files w).

(** The addresses [ls] hold the records [recs]. *)
Definition holds (w : World) (ls : list nat) (recs : list SpectralRecord) : Prop :=
  Forall2 (fun l rec => nth_error (objects w) l = Some rec) ls recs.

(** Lines 93-97: what [main] does with the records once they are loaded. *)
Definition analyse (records : list nat) : Main unit :=
  max_row <== in_world (max_attr row records) ;;
  max_col <== in_world (max_attr col records) ;;
  results <== in_world (run_example records 80) ;;
  in_world (visualize_ndvi results (max_row + 1) (max_col + 1) "ndvi_heatmap.png").

(** The line that [regenerate] prints. *)
Definition generated_line : string :=
  "Generated synthetic dataset at data/synthetic_field_multispec.csv".

(** A defined NDVI strictly between -1 and 1. *)
Definition proper_ndvi (v : option Q) : Prop :=
  exists x, v = Some x /\ -1 < x /\ x < 1.

(** ** A small concrete generator and math library, used to run the model *)

Module Toy.

(** A counter; [random()] walks through the multiples of 1/50 below 1. *)
Definition toy_random (s : Z) : Q * Z :=
  ((s mod 50)%Z # 50, (s + 1)%Z).

Definition toy_gauss (mu sigma : Q) (s : Z) : Q * Z :=
  (mu + sigma * inject_Z ((s mod 5) - 2), (s + 1)%Z).

Lemma toy_random_range s : 0 <= fst (toy_random s) /\ fst (toy_random s) < 1.
Proof.
  unfold toy_random; simpl fst.
  pose proof (Z.mod_pos_bound s 50 ltac:(lia)) as H.
  unfold Qle, Qlt; simpl; lia.
Qed.

#[export] Instance source : RandomSource := {|
  rng := Z;
  Random := fun seed => seed;
  rng_random := toy_random;
  rng_gauss := toy_gauss;
  rng_random_range := toy_random_range
|}.

Definition toy_exp (x : Q) : Q := 1 / (1 + x * x).
Definition toy_sin (x : Q) : Q := x / (1 + x * x).

Lemma toy_exp_compat x y : x == y -> toy_exp x == toy_exp y.
Proof. intro H. unfold toy_exp. now rewrite H. Qed.

#[export] Instance libm : LibM := {|
  math_exp := toy_exp;
  math_sin := toy_sin;
  math_exp_compat := toy_exp_compat
|}.

End Toy.

(** * Properties *)

(** ** Comparisons and clamping *)

Lemma Qltb_lt x y : Qltb x y = true <-> x < y.
Proof.
  unfold Qltb. rewrite Qlt_alt.
  destruct (x ?= y); split; intro H; congruence.
Qed.

Lemma Qltb_ge x y : Qltb x y = false <-> y <= x.
Proof.
  rewrite <- Bool.not_true_iff_false, Qltb_lt.
  split; intro H; [ apply Qnot_lt_le | apply Qle_not_lt ]; exact H.
Qed.

Ltac case_Qltb :=
  match goal with
  | |- context [Qltb ?x ?y] =>
      let E := fresh "E" in
      destruct (Qltb x y) eqn:E;
      [ apply Qltb_lt in E | apply Qltb_ge in E ]
  end.

Lemma clamp_bounds value lo hi :
  lo <= hi -> lo <= _clamp value lo hi /\ _clamp value lo hi <= hi.
Proof.
  intro Hlh. unfold _clamp, py_max, py_min.
  destruct (Qltb value hi) eqn:E1;
    [ apply Qltb_lt in E1 | apply Qltb_ge in E1 ];
    case_Qltb; split; lra.
Qed.

Lemma clamp_spec_clamp value lo hi :
  lo <= hi -> _clamp value lo hi == spec_clamp lo hi value.
Proof.
  intro Hlh. unfold _clamp, py_max, py_min, spec_clamp.
  destruct (Qlt_le_dec value lo), (Qlt_le_dec hi value);
    (destruct (Qltb value hi) eqn:E1;
     [ apply Qltb_lt in E1 | apply Qltb_ge in E1 ]);
    case_Qltb; lra.
Qed.

Lemma clamp_compat v w lo hi : v == w -> _clamp v lo hi == _clamp w lo hi.
Proof.
  intro Hvw. unfold _clamp, py_max, py_min.
  destruct (Qltb v hi) eqn:E1; [ apply Qltb_lt in E1 | apply Qltb_ge in E1 ];
    (destruct (Qltb w hi) eqn:E2; [ apply Qltb_lt in E2 | apply Qltb_ge in E2 ]);
    repeat case_Qltb; lra.
Qed.

Lemma inject_Z_pos n : (0 < n)%Z -> 0 < inject_Z n.
Proof. intro H. change 0 with (inject_Z 0). rewrite <- Zlt_Qlt. exact H. Qed.

Lemma py_div_ok x y : ~ y == 0 -> py_div x y = Ok (x / y).
Proof.
  intro H. unfold py_div.
  destruct (Qeq_bool y 0) eqn:E; [ | reflexivity ].
  apply Qeq_bool_iff in E. contradiction.
Qed.

(** ** Ranges and indexing *)

Lemma py_range_nonpos n : (n <= 0)%Z -> py_range n = [].
Proof.
  intro H. unfold py_range.
  replace (Z.to_nat n) with O by lia. reflexivity.
Qed.

Lemma py_range_length n : List.length (py_range n) = Z.to_nat n.
Proof. unfold py_range. now rewrite length_map, length_seq. Qed.

Lemma py_range_In n i : In i (py_range n) <-> (0 <= i < n)%Z.
Proof.
  unfold py_range. rewrite in_map_iff. split.
  - intros (k & <- & Hk). apply in_seq in Hk. lia.
  - intro H. exists (Z.to_nat i). split; [ lia | ].
    apply in_seq. lia.
Qed.

Lemma py_range_NoDup n : NoDup (py_range n).
Proof.
  unfold py_range. apply Injective_map_NoDup.
  - intros a b Hab. lia.
  - apply seq_NoDup.
Qed.

Lemma py_index_ok {A} (l : list A) i :
  (0 <= i < Z.of_nat (List.length l))%Z -> exists a, py_index l i = Ok a.
Proof.
  intro H. unfold py_index.
  replace (i <? 0)%Z with false by lia.
  replace ((i <? 0) || (Z.of_nat (List.length l) <=? i))%Z%bool with false by lia.
  destruct (nth_error l (Z.to_nat i)) eqn:E; [ eauto | ].
  apply nth_error_None in E. lia.
Qed.

(** ** The generator: draws, cells and loops *)

Section GeneratorFacts.
Context {RS : RandomSource} {LM : LibM}.

Lemma uniform_range a b s :
  a <= b -> exists u s', uniform a b s = Ok (u, s') /\ a <= u /\ u <= b.
Proof.
  intro Hab. unfold uniform, bind, random, ret.
  pose proof (rng_random_range s) as [H0 H1].
  destruct (rng_random s) as [u s']; simpl in *.
  exists (a + (b - a) * u), s'. split; [ reflexivity | ]. split; nra.
Qed.

Lemma gauss_ok mu sigma s : exists g s', gauss mu sigma s = Ok (g, s').
Proof. unfold gauss. destruct (rng_gauss mu sigma s) as [g s']. eauto. Qed.

Lemma stress_ok rows cols r c :
  (0 < rows)%Z -> exists st, cell_stress rows cols r c = Ok st /\ st == spec_stress rows cols r c.
Proof.
  intro Hrows. apply inject_Z_pos in Hrows.
  unfold cell_stress, stress_centers, stress_loop.
  rewrite py_div_ok by nra. cbn [result_bind].
  rewrite py_div_ok by nra. cbn [result_bind].
  eexists. split; [ reflexivity | ].
  unfold spec_stress. rewrite <- clamp_spec_clamp by lra.
  unfold pocket. apply clamp_compat.
  rewrite Qplus_0_l.
  apply Qplus_comp; apply math_exp_compat; field; nra.
Qed.

Lemma fertility_ok rows cols r c :
  (0 < rows)%Z -> (0 < cols)%Z -> exists f, cell_fertility rows cols r c = Ok f.
Proof.
  intros Hrows Hcols. apply inject_Z_pos in Hrows, Hcols.
  unfold cell_fertility.
  rewrite py_div_ok by lra. cbn [result_bind].
  rewrite py_div_ok by lra. cbn [result_bind]. eauto.
Qed.

(** Running one step of a computation whose outcome is known. *)
Lemma bind_ok {A B} (m : Gen A) (k : A -> Gen B) s a s' :
  m s = Ok (a, s') -> bind m k s = k a s'.
Proof. intro H. unfold bind. now rewrite H. Qed.

Lemma lift_ok {A} (x : result A) a s : x = Ok a -> lift x s = Ok (a, s).
Proof. intros ->. reflexivity. Qed.

Ltac draw_gauss :=
  match goal with
  | |- context [bind (gauss ?mu ?sigma) ?k ?s] =>
      let g := fresh "g" in let s' := fresh "s" in let E := fresh "E" in
      destruct (gauss_ok mu sigma s) as (g & s' & E);
      rewrite (bind_ok _ k s g s' E); clear E
  end.

Ltac draw_uniform :=
  match goal with
  | |- context [bind (uniform ?a ?b) ?k ?s] =>
      let u := fresh "u" in let s' := fresh "s" in let E := fresh "E" in
      let Hl := fresh "Hl" in let Hu := fresh "Hu" in
      destruct (uniform_range a b s ltac:(lra)) as (u & s' & E & Hl & Hu);
      rewrite (bind_ok _ k s u s' E); clear E
  end.

Lemma cell_bands_ok rows cols row_gradient col_bias r c s :
  (0 <= r < rows)%Z -> (0 <= c < cols)%Z ->
  List.length row_gradient = Z.to_nat rows ->
  List.length col_bias = Z.to_nat cols ->
  exists b s', cell_bands rows cols row_gradient col_bias r c s = Ok (b, s')
               /\ within_clamp b.
Proof.
  intros Hr Hc Hrg Hcb.
  destruct (stress_ok rows cols r c ltac:(lia)) as (st & Est & _).
  destruct (fertility_ok rows cols r c ltac:(lia) ltac:(lia)) as (f & Ef).
  destruct (py_index_ok row_gradient r ltac:(lia)) as (rg & Erg).
  destruct (py_index_ok col_bias c ltac:(lia)) as (cb & Ecb).
  unfold cell_bands.
  rewrite (bind_ok _ _ s st s (lift_ok _ _ _ Est)).
  rewrite (bind_ok _ _ s f s (lift_ok _ _ _ Ef)).
  draw_uniform.
  rewrite (bind_ok _ _ _ rg _ (lift_ok _ _ _ Erg)).
  rewrite (bind_ok _ _ _ cb _ (lift_ok _ _ _ Ecb)).
  draw_gauss. draw_uniform. repeat draw_gauss.
  eexists _, _. split; [ reflexivity | ].
  unfold within_clamp; cbn [blue green red red_edge red_edge2 nir nir2 swir1 swir2].
  repeat split; apply clamp_bounds; lra.
Qed.


Lemma thin_cloud_ok b s :
  exists b' s', thin_cloud b s = Ok (b', s') /\ cloud_outcome b s b'.
Proof.
  unfold thin_cloud, cloud_outcome, cloud_fires, bind at 1, random.
  destruct (rng_random s) as [u s1]; cbn [fst].
  destruct (Qltb u 0.02).
  - draw_uniform. draw_uniform.
    eexists _, _. split; [ reflexivity | ].
    eexists _, _. repeat split; eassumption || reflexivity.
  - eexists _, _. split; reflexivity.
Qed.

Lemma gen_cell_ok rows cols row_gradient col_bias r c s :
  (0 <= r < rows)%Z -> (0 <= c < cols)%Z ->
  List.length row_gradient = Z.to_nat rows ->
  List.length col_bias = Z.to_nat cols ->
  exists rec s', gen_cell rows cols row_gradient col_bias r c s = Ok (rec, s')
                 /\ cell_post r c rec.
Proof.
  intros Hr Hc Hrg Hcb.
  destruct (cell_bands_ok rows cols row_gradient col_bias r c s Hr Hc Hrg Hcb)
    as (b & s1 & Eb & Hb).
  destruct (thin_cloud_ok b s1) as (b' & s2 & Ec & Hc').
  unfold gen_cell.
  rewrite (bind_ok _ _ _ _ _ Eb), (bind_ok _ _ _ _ _ Ec).
  eexists _, _. split; [ reflexivity | ].
  unfold cell_post. repeat split.
  exists b, s1, s2.
  replace (bands_of (make_record r c b')) with b' by (destruct b'; reflexivity).
  auto.
Qed.

(** A loop whose body always succeeds and appends a block of records. *)
Lemma for_each_blocks {A} (P : A -> list SpectralRecord -> Prop)
      (body : A -> list SpectralRecord -> Gen (list SpectralRecord)) xs :
  (forall x acc s, In x xs ->
     exists block s', body x acc s = Ok (acc ++ block, s') /\ P x block) ->
  forall acc s,
  exists blocks s',
    for_each xs body acc s = Ok (acc ++ List.concat blocks, s') /\ Forall2 P xs blocks.
Proof.
  induction xs as [ | x xs IH ]; intros Hbody acc s.
  - exists [], s. cbn. rewrite List.app_nil_r. split; [ reflexivity | constructor ].
  - destruct (Hbody x acc s (or_introl eq_refl)) as (block & s1 & E1 & HP).
    destruct (IH (fun y a t Hy => Hbody y a t (or_intror Hy)) (acc ++ block) s1)
      as (blocks & s2 & E2 & HF).
    exists (block :: blocks), s2. split; [ | constructor; assumption ].
    cbn [for_each]. rewrite (bind_ok _ _ _ _ _ E1), E2.
    cbn [List.concat]. now rewrite List.app_assoc.
Qed.

Lemma for_collect_gauss mu sigma {A} (xs : list A) s :
  exists l s', for_collect xs (fun _ => gauss mu sigma) s = Ok (l, s')
               /\ List.length l = List.length xs.
Proof.
  revert s. induction xs as [ | x xs IH ]; intro s.
  - exists [], s. split; reflexivity.
  - cbn [for_collect]. draw_gauss.
    destruct (IH s0) as (l & s1 & E & Hl).
    rewrite (bind_ok _ _ _ _ _ E).
    exists (g :: l), s1. split; [ reflexivity | ]. cbn. now rewrite Hl.
Qed.

Lemma Forall2_singletons {A B} (P : A -> B -> Prop) xs blocks :
  Forall2 (fun x block => exists y, block = [y] /\ P x y) xs blocks ->
  Forall2 P xs (List.concat blocks).
Proof.
  induction 1 as [ | x block xs blocks (y & -> & Hy) _ IH ];
    cbn; constructor; assumption.
Qed.

(** The grid of a proper call: one block per row, one record per cell. *)
Lemma generate_cells rows cols seed :
  (0 < rows)%Z -> (0 < cols)%Z ->
  exists blocks,
    generate_spectral_grid rows cols seed = Ok (List.concat blocks) /\
    Forall2 (fun r block => Forall2 (cell_post r) (py_range cols) block)
            (py_range rows) blocks.
Proof.
  intros Hrows Hcols. unfold generate_spectral_grid, generate_from.
  destruct (for_collect_gauss 1.0 0.01 (py_range cols) (Random seed))
    as (col_bias & s1 & Ecb & Hcb).
  rewrite py_range_length in Hcb.
  rewrite (bind_ok _ _ _ _ _ Ecb).
  set (row_gradient := map _ (py_range rows)).
  assert (Hrg : List.length row_gradient = Z.to_nat rows)
    by (unfold row_gradient; now rewrite length_map, py_range_length).
  unfold grid_loop.
  edestruct (for_each_blocks
               (fun r block => Forall2 (cell_post r) (py_range cols) block))
    as (blocks & s2 & E & HF); [ | rewrite E; exists blocks; split; [ reflexivity | exact HF ] ].
  intros r acc s Hr. apply py_range_In in Hr.
  edestruct (for_each_blocks (fun c block => exists rec, block = [rec] /\ cell_post r c rec))
    as (cells & s3 & E3 & HF3); [ | rewrite E3 ].
  - intros c acc' s' Hc. apply py_range_In in Hc.
    destruct (gen_cell_ok rows cols row_gradient col_bias r c s' Hr Hc Hrg Hcb)
      as (rec & s4 & E4 & Hpost).
    exists [rec], s4. rewrite (bind_ok _ _ _ _ _ E4).
    split; [ reflexivity | eauto ].
  - exists (List.concat cells), s3. split; [ reflexivity | ].
    apply Forall2_singletons. exact HF3.
Qed.

(** A call with no row or no column to visit returns the empty list. *)
Lemma generate_empty rows cols seed :
  (rows <= 0)%Z \/ (cols <= 0)%Z -> generate_spectral_grid rows cols seed = Ok [].
Proof.
  intro H. unfold generate_spectral_grid, generate_from.
  destruct (for_collect_gauss 1.0 0.01 (py_range cols) (Random seed))
    as (col_bias & s1 & Ecb & _).
  rewrite (bind_ok _ _ _ _ _ Ecb). unfold grid_loop.
  destruct H as [H | H].
  - rewrite (py_range_nonpos rows H). reflexivity.
  - rewrite (py_range_nonpos cols H). cbn [for_each].
    generalize s1. induction (py_range rows) as [ | r rs IH ]; intro s.
    + reflexivity.
    + cbn [for_each]. unfold bind at 1, ret at 1. apply IH.
Qed.

End GeneratorFacts.

(** ** Plot identifiers *)

Lemma str_int_nonneg n :
  (0 <= n)%Z -> str_int n = NilEmpty.string_of_uint (N.to_uint (Z.to_N n)).
Proof.
  intro H. unfold str_int. destruct n as [ | p | p ]; [ reflexivity | | lia ].
  cbn. unfold NilZero.string_of_uint.
  pose proof (DecimalPos.Unsigned.to_uint_nonnil p) as Hp.
  destruct (Pos.to_uint p); [ contradiction | reflexivity .. ].
Qed.

Lemma zeros_string_of_uint k d :
  (zeros k ++ NilEmpty.string_of_uint d)%string
  = NilEmpty.string_of_uint (Nat.iter k Decimal.D0 d).
Proof. induction k as [ | k IH ]; cbn; [ reflexivity | now rewrite IH ]. Qed.

Lemma of_uint_zeros k d : N.of_uint (Nat.iter k Decimal.D0 d) = N.of_uint d.
Proof. induction k as [ | k IH ]; [ reflexivity | exact IH ]. Qed.

Lemma decimal_value_zfill w n :
  (0 <= n)%Z -> decimal_value (zfill w (str_int n)) = Some (Z.to_N n).
Proof.
  intro H. unfold decimal_value, zfill.
  rewrite (str_int_nonneg n H), zeros_string_of_uint, NilEmpty.usu.
  cbn [option_map]. now rewrite of_uint_zeros, DecimalN.Unsigned.of_to.
Qed.

Lemma split_at_C_digits d rest :
  split_at_C (NilEmpty.string_of_uint d ++ String "C" rest)
  = (NilEmpty.string_of_uint d, rest).
Proof.
  induction d; cbn [NilEmpty.string_of_uint String.append split_at_C];
    [ reflexivity | cbn [Ascii.eqb Bool.eqb]; rewrite IHd; reflexivity .. ].
Qed.

Lemma format_03d_nonneg n : (0 <= n)%Z -> format_03d n = zfill 3 (str_int n).
Proof. intro H. unfold format_03d. now replace (n <? 0)%Z with false by lia. Qed.

Lemma parse_plot_id_of r c :
  (0 <= r)%Z -> (0 <= c)%Z ->
  parse_plot_id (plot_id_of r c) = Some (Z.to_N (r + 1), Z.to_N (c + 1)).
Proof.
  intros Hr Hc. unfold plot_id_of, parse_plot_id. cbn [String.append].
  rewrite !format_03d_nonneg by lia.
  assert (E : zfill 3 (str_int (r + 1))
              = NilEmpty.string_of_uint
                  (Nat.iter (3 - String.length (str_int (r + 1))) Decimal.D0
                     (N.to_uint (Z.to_N (r + 1))))).
  { unfold zfill. rewrite <- zeros_string_of_uint.
    now rewrite <- str_int_nonneg by lia. }
  rewrite E at 1. rewrite split_at_C_digits, <- E.
  now rewrite !decimal_value_zfill by lia.
Qed.

Lemma plot_id_of_inj r c r' c' :
  (0 <= r)%Z -> (0 <= c)%Z -> (0 <= r')%Z -> (0 <= c')%Z ->
  plot_id_of r c = plot_id_of r' c' -> r = r' /\ c = c'.
Proof.
  intros Hr Hc Hr' Hc' E.
  apply (f_equal parse_plot_id) in E.
  rewrite !parse_plot_id_of in E by assumption.
  injection E as E1 E2. lia.
Qed.

(** ** The shape of the grid *)

Lemma row_major_In rows cols r c :
  In (r, c) (row_major rows cols) <-> (0 <= r < rows)%Z /\ (0 <= c < cols)%Z.
Proof.
  unfold row_major. rewrite in_flat_map. split.
  - intros (r' & Hr & Hin). apply in_map_iff in Hin as (c' & [= <- <-] & Hc).
    now rewrite <- !py_range_In.
  - intros [Hr Hc]. exists r. rewrite py_range_In. split; [ exact Hr | ].
    apply in_map. now apply py_range_In.
Qed.

Lemma product_NoDup (rs cs : list Z) :
  NoDup rs -> NoDup cs ->
  NoDup (flat_map (fun r => map (fun c => (r, c)) cs) rs).
Proof.
  intros Hrs Hcs. induction Hrs as [ | r rs Hr _ IH ]; cbn; [ constructor | ].
  apply NoDup_app; [ | exact IH | ].
  - apply Injective_map_NoDup; [ | exact Hcs ].
    intros a b [= ->]. reflexivity.
  - intros [r' c'] Hin Hin'.
    apply in_map_iff in Hin as (c0 & [= <- <-] & _).
    apply in_flat_map in Hin' as (r0 & Hr0 & Hin').
    apply in_map_iff in Hin' as (c1 & [= <- <-] & _). contradiction.
Qed.

Lemma product_length (rs cs : list Z) :
  List.length (flat_map (fun r => map (fun c => (r, c)) cs) rs)
  = (List.length rs * List.length cs)%nat.
Proof.
  induction rs as [ | r rs IH ]; cbn; [ reflexivity | ].
  now rewrite length_app, length_map, IH.
Qed.

Section GridFacts.
Context {RS : RandomSource} {LM : LibM}.

Lemma blocks_positions (rs cs : list Z) blocks :
  Forall2 (fun r block => Forall2 (cell_post r) cs block) rs blocks ->
  map position (List.concat blocks) = flat_map (fun r => map (fun c => (r, c)) cs) rs.
Proof.
  induction 1 as [ | r block rs blocks Hblock _ IH ]; cbn; [ reflexivity | ].
  rewrite map_app, IH. f_equal.
  clear IH. induction Hblock as [ | c rec cs block (Hr & Hc & _) _ IH ]; cbn.
  - reflexivity.
  - rewrite IH. unfold position. now rewrite Hr, Hc.
Qed.

Lemma block_Forall r (cs : list Z) block :
  Forall2 (cell_post r) cs block ->
  Forall (fun rec => exists c, In c cs /\ cell_post r c rec) block.
Proof.
  induction 1 as [ | c rec cs block Hpost _ IH ]; constructor.
  - exists c. cbn. auto.
  - eapply Forall_impl; [ | exact IH ].
    cbn. intros rec' (c' & Hc' & Hp). exists c'. auto.
Qed.

Lemma blocks_Forall (rs cs : list Z) blocks :
  Forall2 (fun r block => Forall2 (cell_post r) cs block) rs blocks ->
  Forall (fun rec => exists r c, In r rs /\ In c cs /\ cell_post r c rec)
         (List.concat blocks).
Proof.
  induction 1 as [ | r block rs blocks Hblock _ IH ]; cbn; [ constructor | ].
  apply Forall_app. split.
  - eapply Forall_impl; [ | apply (block_Forall _ _ _ Hblock) ].
    cbn. intros rec' (c' & Hc' & Hp). exists r, c'. auto.
  - eapply Forall_impl; [ | exact IH ].
    cbn. intros rec' (r' & c' & Hr' & Hc' & Hp). exists r', c'. auto.
Qed.

(** Every record of a returned grid is the record of one of its cells. *)
Lemma generate_records rows cols seed records :
  generate_spectral_grid rows cols seed = Ok records ->
  Forall (fun rec => exists r c,
            (0 <= r < rows)%Z /\ (0 <= c < cols)%Z /\ cell_post r c rec) records.
Proof.
  intro E.
  destruct (Z_lt_le_dec 0 rows) as [Hrows | Hrows];
    [ destruct (Z_lt_le_dec 0 cols) as [Hcols | Hcols] | ].
  - destruct (generate_cells rows cols seed Hrows Hcols) as (blocks & E' & HF).
    rewrite E' in E. injection E as <-.
    eapply Forall_impl; [ | apply (blocks_Forall _ _ _ HF) ].
    cbn. intros rec (r & c & Hr & Hc & Hp). exists r, c.
    now rewrite <- !py_range_In.
  - rewrite generate_empty in E by (right; exact Hcols). injection E as <-. constructor.
  - rewrite generate_empty in E by (left; exact Hrows). injection E as <-. constructor.
Qed.

End GridFacts.

(** ** The output depends on the random source through its stream only *)

Create HintDb agree.

Section SameStream.

Variables RS1 RS2 : RandomSource.
Context {LM : LibM}.

(** A relation between the states of two generators that is kept by every
    draw, the two draws giving the same number. *)
Variable R : @rng RS1 -> @rng RS2 -> Prop.

Hypothesis R_random : forall s1 s2, R s1 s2 ->
  fst (rng_random s1) = fst (rng_random s2) /\
  R (snd (rng_random s1)) (snd (rng_random s2)).

Hypothesis R_gauss : forall mu sigma s1 s2, R s1 s2 ->
  fst (rng_gauss mu sigma s1) = fst (rng_gauss mu sigma s2) /\
  R (snd (rng_gauss mu sigma s1)) (snd (rng_gauss mu sigma s2)).

Lemma agree_ret {A} (a : A) : agree R (ret a) (ret a).
Proof. intros s1 s2 H. cbn. auto. Qed.

Lemma agree_lift {A} (x : result A) : agree R (lift x) (lift x).
Proof. intros s1 s2 H. unfold lift. destruct x; cbn; auto. Qed.

Lemma agree_bind {A B} (m1 : @Gen RS1 A) (m2 : @Gen RS2 A) k1 k2 :
  agree R m1 m2 -> (forall a : A, agree R (k1 a) (k2 a : @Gen RS2 B)) ->
  agree R (bind m1 k1) (bind m2 k2).
Proof.
  intros Hm Hk s1 s2 H. specialize (Hm s1 s2 H). unfold agree, bind, same_outcome in *.
  destruct (m1 s1) as [[a1 t1] | e1], (m2 s2) as [[a2 t2] | e2];
    try contradiction; [ | exact Hm ].
  destruct Hm as [<- Ht]. apply (Hk a1 t1 t2 Ht).
Qed.

Lemma agree_random : agree R random random.
Proof.
  intros s1 s2 H. destruct (R_random s1 s2 H) as [Hv Ht].
  unfold random, same_outcome.
  destruct (rng_random s1), (rng_random s2). cbn in *. auto.
Qed.

Lemma agree_gauss mu sigma : agree R (gauss mu sigma) (gauss mu sigma).
Proof.
  intros s1 s2 H. destruct (R_gauss mu sigma s1 s2 H) as [Hv Ht].
  unfold gauss, same_outcome.
  destruct (rng_gauss mu sigma s1), (rng_gauss mu sigma s2). cbn in *. auto.
Qed.

#[local] Hint Resolve agree_ret agree_lift agree_random agree_gauss : agree.
#[local] Hint Extern 2 (agree _ (bind _ _) (bind _ _)) => apply agree_bind; [ | intro ] : agree.

Lemma agree_uniform a b : agree R (uniform a b) (uniform a b).
Proof. unfold uniform. auto with agree. Qed.

#[local] Hint Resolve agree_uniform : agree.

Lemma agree_for_collect {A B} (xs : list A) body1 body2 :
  (forall x, agree R (body1 x) (body2 x : @Gen RS2 B)) ->
  agree R (for_collect xs body1) (for_collect xs body2).
Proof.
  intro Hbody. induction xs as [ | x xs IH ]; cbn [for_collect]; auto with agree.
Qed.

Lemma agree_for_each {A S} (xs : list A) body1 body2 :
  (forall x acc, agree R (body1 x acc) (body2 x acc : @Gen RS2 S)) ->
  forall acc, agree R (for_each xs body1 acc) (for_each xs body2 acc).
Proof.
  intro Hbody. induction xs as [ | x xs IH ]; intro acc; cbn [for_each];
    auto with agree.
Qed.

Lemma agree_cell_bands rows cols row_gradient col_bias r c :
  agree R (cell_bands rows cols row_gradient col_bias r c)
        (cell_bands rows cols row_gradient col_bias r c).
Proof. unfold cell_bands. auto 40 with agree. Qed.

Lemma agree_thin_cloud b : agree R (thin_cloud b) (thin_cloud b).
Proof.
  unfold thin_cloud. apply agree_bind; [ apply agree_random | ].
  intro u. destruct (Qltb u 0.02); auto with agree.
Qed.

Lemma agree_gen_cell rows cols row_gradient col_bias r c :
  agree R (gen_cell rows cols row_gradient col_bias r c)
        (gen_cell rows cols row_gradient col_bias r c).
Proof.
  unfold gen_cell.
  apply agree_bind; [ apply agree_cell_bands | intro b ].
  apply agree_bind; [ apply agree_thin_cloud | intro b' ].
  apply agree_ret.
Qed.

Lemma agree_generate_from rows cols :
  agree R (generate_from rows cols) (generate_from rows cols).
Proof.
  unfold generate_from.
  apply agree_bind; [ apply agree_for_collect; intro; apply agree_gauss | ].
  intro col_bias. unfold grid_loop.
  apply agree_for_each. intros r acc.
  apply agree_for_each. intros c acc'.
  apply agree_bind; [ apply agree_gen_cell | intro; apply agree_ret ].
Qed.

(** Two generators that yield the same stream of numbers yield the same
    grid, whatever their states are made of. *)
Lemma generate_same_stream rows cols seed1 seed2 :
  R (@Random RS1 seed1) (@Random RS2 seed2) ->
  @generate_spectral_grid RS1 LM rows cols seed1
  = @generate_spectral_grid RS2 LM rows cols seed2.
Proof.
  intro H. pose proof (agree_generate_from rows cols _ _ H) as Ho.
  unfold generate_spectral_grid, same_outcome in *.
  destruct (generate_from rows cols (Random seed1)) as [[a1 t1] | e1],
           (generate_from rows cols (Random seed2)) as [[a2 t2] | e2];
    try contradiction.
  - destruct Ho as [-> _]. reflexivity.
  - now subst.
Qed.

End SameStream.

(** ** The claims about [generate_spectral_grid] *)

Section GeneratorClaims.
Context {RS : RandomSource} {LM : LibM}.

(** C1.  Determinism: two calls of [generate_spectral_grid] with the same
    [rows], [cols] and [seed] return the same outcome, hence record sequences
    of the same length that agree on every field of every record.  The
    reason is that the random numbers come from the one stream that the seed
    initialises, drawn in a fixed order: a call on any generator, seeded in
    any way, that yields the same stream of numbers returns that outcome
    too. *)
Theorem generate_deterministic (rows cols seed : Z)
        (first second : result (list SpectralRecord)) :
  generate_spectral_grid rows cols seed = first ->
  generate_spectral_grid rows cols seed = second ->
  first = second /\
  forall (RS' : RandomSource) (R : @rng RS -> @rng RS' -> Prop),
    (forall s s', R s s' ->
       fst (@rng_random RS s) = fst (@rng_random RS' s') /\
       R (snd (@rng_random RS s)) (snd (@rng_random RS' s'))) ->
    (forall mu sigma s s', R s s' ->
       fst (@rng_gauss RS mu sigma s) = fst (@rng_gauss RS' mu sigma s') /\
       R (snd (@rng_gauss RS mu sigma s)) (snd (@rng_gauss RS' mu sigma s'))) ->
    forall seed', R (@Random RS seed) (@Random RS' seed') ->
      @generate_spectral_grid RS' LM rows cols seed' = first.
Proof.
  intros <- <-. split; [ reflexivity | ].
  intros RS' R Hrandom Hgauss seed' Hseed. symmetry.
  exact (generate_same_stream RS RS' R Hrandom Hgauss rows cols seed seed' Hseed).
Qed.

(** C2.  Coverage: for positive [rows] and [cols] the call returns (it does
    not raise) a list of exactly [rows * cols] records whose positions are
    the cells of the grid in row-major order, so that every cell of the grid
    occurs exactly once. *)
Theorem generate_row_major (rows cols seed : Z) :
  (0 < rows)%Z -> (0 < cols)%Z ->
  exists records,
    generate_spectral_grid rows cols seed = Ok records /\
    List.length records = Z.to_nat (rows * cols) /\
    map position records = row_major rows cols /\
    forall r c, (0 <= r < rows)%Z -> (0 <= c < cols)%Z ->
      count_occ position_eq_dec (map position records) (r, c) = 1%nat.
Proof.
  intros Hrows Hcols.
  destruct (generate_cells rows cols seed Hrows Hcols) as (blocks & E & HF).
  exists (List.concat blocks). split; [ exact E | ].
  pose proof (blocks_positions _ _ _ HF) as Hpos. fold (row_major rows cols) in Hpos.
  split; [ | split; [ exact Hpos | ] ].
  - rewrite <- (length_map position), Hpos. unfold row_major.
    rewrite product_length, !py_range_length. lia.
  - intros r c Hr Hc. rewrite Hpos.
    apply NoDup_count_occ'.
    + apply product_NoDup; apply py_range_NoDup.
    + apply row_major_In. split; assumption.
Qed.

(** C3, as the code has it.  There is no check of the dimensions: a call
    with [rows <= 0] or [cols <= 0], for dimensions of at most a million in
    absolute value, raises nothing; no cell is visited and the empty list
    is returned.  (Far beyond, from about 10^154, line 38 raises an
    [OverflowError], which the number model leaves out: hence the bound.) *)
Theorem generate_nonpositive_dimension (rows cols seed : Z) :
  ordinary_dimension rows -> ordinary_dimension cols ->
  (rows <= 0)%Z \/ (cols <= 0)%Z ->
  generate_spectral_grid rows cols seed = Ok [].
Proof. intros _ _. apply generate_empty. Qed.

(** C4.  Bounds: the bands of every record of a returned grid are the
    output of the cloud step on bands [base] that lie within their clamp
    intervals.  Where the cloud flag drawn in that step did not fire, the
    record holds [base] itself; where it fired, the record holds [base]
    scaled by [factor_vis] in [1.05, 1.12] on the visible and red-edge
    bands, by [factor_nir] in [0.90, 0.96] on the two NIR bands and by
    [factor_vis * 0.9] on the two SWIR bands. *)
Theorem generate_bands_clamped_or_cloud_scaled (rows cols seed : Z)
        (records : list SpectralRecord) :
  generate_spectral_grid rows cols seed = Ok records ->
  Forall (fun rec =>
            exists base s s',
              within_clamp base /\
              thin_cloud base s = Ok (bands_of rec, s') /\
              if cloud_fires s then
                exists factor_vis factor_nir,
                  (1.05 <= factor_vis /\ factor_vis <= 1.12) /\
                  (0.90 <= factor_nir /\ factor_nir <= 0.96) /\
                  bands_of rec = cloud_scale factor_vis factor_nir base
              else bands_of rec = base)
         records.
Proof.
  intro E. eapply Forall_impl; [ | apply (generate_records _ _ _ _ E) ].
  cbn. intros rec (r & c & _ & _ & _ & _ & _ & H). exact H.
Qed.

(** C6.  Plot identifiers: every record of a returned grid is named [R],
    its row number plus one in decimal, zero-padded to three digits, [C],
    and its column number plus one written the same way; and two records of
    the grid at different positions have different names. *)
Theorem generate_plot_ids (rows cols seed : Z) (records : list SpectralRecord) :
  generate_spectral_grid rows cols seed = Ok records ->
  Forall (fun rec =>
            plot_id rec
            = (String "R" (zfill 3 (str_int (row rec + 1)))
               ++ String "C" (zfill 3 (str_int (col rec + 1))))%string)
         records /\
  forall rec1 rec2,
    In rec1 records -> In rec2 records ->
    position rec1 <> position rec2 -> plot_id rec1 <> plot_id rec2.
Proof.
  intro E. pose proof (generate_records _ _ _ _ E) as H.
  rewrite Forall_forall in H. split.
  - apply Forall_forall. intros rec Hin.
    destruct (H rec Hin) as (r & c & Hr & Hc & Hrow & Hcol & Hid & _).
    rewrite Hid, Hrow, Hcol. unfold plot_id_of.
    now rewrite !format_03d_nonneg by lia.
  - intros rec1 rec2 Hin1 Hin2 Hpos Hid.
    destruct (H rec1 Hin1) as (r1 & c1 & Hr1 & Hc1 & Hrow1 & Hcol1 & Hid1 & _).
    destruct (H rec2 Hin2) as (r2 & c2 & Hr2 & Hc2 & Hrow2 & Hcol2 & Hid2 & _).
    rewrite Hid1, Hid2 in Hid.
    apply plot_id_of_inj in Hid as [-> ->]; try lia.
    apply Hpos. unfold position. congruence.
Qed.

(** C7.  Stress: at every cell of the grid the stress that the synthesizer
    uses is the sum of the two Gaussian pockets of the specification, with
    centers [(0.65 rows, 0.68 cols)] and [(0.30 rows, 0.25 cols)] and
    variances [(0.20 rows)^2] and [(0.18 rows)^2], clamped to [0.0, 1.6]:
    it is 0 where the sum is below 0, 1.6 where the sum is above 1.6 and
    the sum itself in between, so it always lies in the interval.
    Computing it neither reads nor advances the random source. *)
Theorem cell_stress_two_pockets (rows cols r c : Z) :
  (0 <= r < rows)%Z -> (0 <= c < cols)%Z ->
  exists stress,
    cell_stress rows cols r c = Ok stress /\
    stress == spec_stress rows cols r c /\
    (0 <= stress /\ stress <= 1.6) /\
    forall s : rng, lift (cell_stress rows cols r c) s = Ok (stress, s).
Proof.
  intros Hr Hc.
  destruct (stress_ok rows cols r c ltac:(lia)) as (st & E & Hst).
  exists st. split; [ exact E | split; [ exact Hst | split ] ].
  - unfold cell_stress in E.
    destruct (stress_loop (stress_centers rows cols) r c 0) as [ sum | e ];
      cbn [result_bind] in E; [ | discriminate ].
    injection E as <-.
    destruct (clamp_bounds sum 0.0 1.6 ltac:(lra)) as [H1 H2]. split; lra.
  - intro s. now rewrite E.
Qed.

End GeneratorClaims.

(** ** NDVI and the field summary *)

Lemma ndvi_nonzero red nir :
  ~ nir + red == 0 -> ndvi red nir = Some ((nir - red) / (nir + red)).
Proof.
  intro H. unfold ndvi.
  destruct (Qeq_bool (nir + red) 0) eqn:E; [ | reflexivity ].
  apply Qeq_bool_iff in E. contradiction.
Qed.

Lemma ndvi_undefined red nir : ndvi red nir = None <-> nir + red == 0.
Proof.
  unfold ndvi. destruct (Qeq_bool (nir + red) 0) eqn:E.
  - apply Qeq_bool_iff in E. tauto.
  - apply Qeq_bool_neq in E. split; [ discriminate | contradiction ].
Qed.

Lemma ndvi_positive red nir :
  0 < red -> 0 < nir ->
  exists v, ndvi red nir = Some v /\ -1 < v /\ v < 1.
Proof.
  intros Hred Hnir. exists ((nir - red) / (nir + red)).
  split; [ apply ndvi_nonzero; lra | split ].
  - apply Qlt_shift_div_l; lra.
  - apply Qlt_shift_div_r; lra.
Qed.

Lemma valid_values_app l1 l2 :
  valid_values (l1 ++ l2) = valid_values l1 ++ valid_values l2.
Proof.
  induction l1 as [ | [[[r c] pid] [v | ]] l1 IH ]; cbn; [ reflexivity | | exact IH ].
  now rewrite IH.
Qed.

Lemma valid_values_undefined l1 l2 r c pid :
  valid_values (l1 ++ (r, c, pid, None) :: l2) = valid_values (l1 ++ l2).
Proof. now rewrite !valid_values_app. Qed.

Lemma py_min_list_le x l : py_min_list x l <= x /\ Forall (fun v => py_min_list x l <= v) l.
Proof.
  unfold py_min_list. revert x. induction l as [ | y l IH ]; intro x; cbn.
  - split; [ lra | constructor ].
  - destruct (IH (py_min x y)) as [H1 H2].
    assert (Hm : py_min x y <= x /\ py_min x y <= y)
      by (unfold py_min; case_Qltb; lra).
    split; [ lra | constructor; [ lra | exact H2 ] ].
Qed.

Lemma py_max_list_ge x l : x <= py_max_list x l /\ Forall (fun v => v <= py_max_list x l) l.
Proof.
  unfold py_max_list. revert x. induction l as [ | y l IH ]; intro x; cbn.
  - split; [ lra | constructor ].
  - destruct (IH (py_max x y)) as [H1 H2].
    assert (Hm : x <= py_max x y /\ y <= py_max x y)
      by (unfold py_max; case_Qltb; lra).
    split; [ lra | constructor; [ lra | exact H2 ] ].
Qed.

Lemma py_sum_shift l a : fold_left Qplus l a == a + py_sum l.
Proof.
  unfold py_sum. revert a. induction l as [ | x l IH ]; intro a; cbn.
  - lra.
  - rewrite (IH (a + x)), (IH (0 + x)). lra.
Qed.

(** ** The objects are left alone *)

Lemma frame_pret {A} (a : A) : frame (pret a).
Proof. intro w. reflexivity. Qed.

Lemma frame_pbind {A B} (m : Prog A) (k : A -> Prog B) :
  frame m -> (forall a, frame (k a)) -> frame (pbind m k).
Proof.
  intros Hm Hk w. unfold pbind. specialize (Hm w).
  destruct (m w) as [[a | e] w']; cbn in *; [ | exact Hm ].
  now rewrite Hk.
Qed.

Lemma frame_deref l : frame (deref l).
Proof. intro w. unfold deref. now destruct (nth_error (objects w) l). Qed.

Lemma frame_print line : frame (print line).
Proof. intro w. reflexivity. Qed.

Lemma frame_savefig outfile grid : frame (savefig outfile grid).
Proof. intro w. reflexivity. Qed.

Lemma frame_pwhen b m : frame m -> frame (pwhen b m).
Proof. intro H. destruct b; [ exact H | apply frame_pret ]. Qed.

Lemma frame_pfor_each {A S} (xs : list A) (body : A -> S -> Prog S) acc :
  (forall x a, frame (body x a)) -> frame (pfor_each xs body acc).
Proof.
  intro Hbody. revert acc. induction xs as [ | x xs IH ]; intro acc; cbn.
  - apply frame_pret.
  - apply frame_pbind; [ apply Hbody | exact IH ].
Qed.

Create HintDb frame.
#[local] Hint Resolve frame_pret frame_deref frame_print frame_savefig : frame.
#[local] Hint Extern 2 (frame (pbind _ _)) => apply frame_pbind; [ | intro ] : frame.
#[local] Hint Extern 2 (frame (pfor_each _ _ _)) => apply frame_pfor_each; intros : frame.
#[local] Hint Extern 2 (frame (pwhen _ _)) => apply frame_pwhen : frame.
#[local] Hint Extern 3 (frame (match ?x with _ => _ end)) => destruct x : frame.

Lemma frame_run_example records preview_count : frame (run_example records preview_count).
Proof. unfold run_example. auto 20 with frame. Qed.

Lemma frame_visualize_ndvi results rows cols outfile :
  frame (visualize_ndvi results rows cols outfile).
Proof. unfold visualize_ndvi. auto with frame. Qed.

(** What [run_example] returns when every address holds a record. *)
Lemma results_loop records recs acc w :
  Forall2 (fun l rec => nth_error (objects w) l = Some rec) records recs ->
  pfor_each records
    (fun l results => pbind (deref l) (fun rec => pret (results ++ [ndvi_result rec])))
    acc w
  = (Ok (acc ++ map ndvi_result recs), w).
Proof.
  intro H. revert acc. induction H as [ | l rec ls recs Hl _ IH ]; intro acc; cbn.
  - now rewrite List.app_nil_r.
  - unfold pbind at 1, pbind at 1, deref. rewrite Hl. unfold pret at 1.
    rewrite IH. now rewrite <- List.app_assoc.
Qed.

Lemma print_loop_ok {A} (f : A -> string) xs w :
  exists w', pfor_each xs (fun x _ => print (f x)) tt w = (Ok tt, w').
Proof.
  revert w. induction xs as [ | x xs IH ]; intro w; cbn.
  - now exists w.
  - unfold pbind, print at 1. apply IH.
Qed.

Lemma run_example_results records recs preview_count w :
  Forall2 (fun l rec => nth_error (objects w) l = Some rec) records recs ->
  fst (run_example records preview_count w) = Ok (map ndvi_result recs).
Proof.
  intro H. unfold run_example.
  unfold pbind at 1. rewrite (results_loop _ _ _ _ H). cbn [app].
  unfold pbind at 1, print at 1.
  unfold pbind at 1.
  match goal with
  | |- context [pfor_each ?xs (fun res _ => print (preview_line res)) tt ?w0] =>
      destruct (print_loop_ok preview_line xs w0) as (w1 & ->)
  end.
  unfold pbind at 1, pwhen.
  match goal with
  | |- context [if ?b then _ else _] => destruct b
  end;
  match goal with
  | |- context [match ?l with [] => _ | _ :: _ => _ end] => destruct l
  end; reflexivity.
Qed.

(** ** The claims about [ndvi], [run_example] and [visualize_ndvi] *)

(** C5.  NDVI: [ndvi red nir] is [(nir - red) / (nir + red)] when the
    denominator is not zero, and it is the undefined value exactly when the
    denominator is zero, without raising.  [run_example] returns one such
    tuple per record; a record with a zero denominator does not change the
    field summary (the mean, the minimum and the maximum are those of the
    list without it); and the summary of a list with at least one defined
    value is the mean, a lower bound and an upper bound of the defined
    values. *)
Theorem ndvi_undefined_excluded_from_summary :
  (forall red nir,
      ~ nir + red == 0 -> ndvi red nir = Some ((nir - red) / (nir + red))) /\
  (forall red nir, ndvi red nir = None <-> nir + red == 0) /\
  (forall records recs preview_count w,
      Forall2 (fun l rec => nth_error (objects w) l = Some rec) records recs ->
      fst (run_example records preview_count w) = Ok (map ndvi_result recs)) /\
  (forall recs1 recs2 rec,
      nir_842 rec + red_665 rec == 0 ->
      field_summary (map ndvi_result (recs1 ++ rec :: recs2))
      = field_summary (map ndvi_result (recs1 ++ recs2))) /\
  (forall results v,
      In v (valid_values results) ->
      exists m l h,
        mean_ndvi (field_summary results) = Some m /\
        lo (field_summary results) = Some l /\
        hi (field_summary results) = Some h /\
        m * inject_Z (Z.of_nat (List.length (valid_values results)))
        == py_sum (valid_values results) /\
        l <= v /\ v <= h).
Proof.
  split; [ exact ndvi_nonzero | ].
  split; [ exact ndvi_undefined | ].
  split; [ exact run_example_results | ].
  split.
  - intros recs1 recs2 rec Hzero. unfold field_summary.
    rewrite !map_app. cbn [map].
    change (ndvi_result rec)
      with (row rec, col rec, plot_id rec, ndvi (red_665 rec) (nir_842 rec)).
    apply ndvi_undefined in Hzero. rewrite Hzero.
    now rewrite valid_values_undefined.
  - intros results v Hin. unfold field_summary.
    destruct (valid_values results) as [ | x rest ] eqn:E; [ contradiction | ].
    eexists _, _, _. repeat split; cbn [mean_ndvi lo hi].
    + field. cbn [List.length]. rewrite Nat2Z.inj_succ.
      intro H0. unfold Z.succ in H0. rewrite inject_Z_plus in H0.
      pose proof (Nat2Z.is_nonneg (List.length rest)) as Hlen.
      rewrite Zle_Qle in Hlen.
      change (inject_Z 1) with 1 in H0. change (inject_Z 0) with 0 in Hlen. lra.
    + destruct (py_min_list_le x rest) as [H1 H2].
      destruct Hin as [<- | Hin]; [ exact H1 | ].
      rewrite Forall_forall in H2. now apply H2.
    + destruct (py_max_list_ge x rest) as [H1 H2].
      destruct Hin as [<- | Hin]; [ exact H1 | ].
      rewrite Forall_forall in H2. now apply H2.
Qed.

(** C9.  Frame: whatever the records, running [run_example] over them,
    running [visualize_ndvi] over any results, or running one after the
    other, leaves every [SpectralRecord] object, hence every field of every
    input record, as it was; only the output and the saved figure are new. *)
Theorem analysis_leaves_records_unchanged
        (records : list nat) (preview_count rows cols : Z) (outfile : string)
        (w : World) :
  objects (snd (run_example records preview_count w)) = objects w /\
  (forall results,
      objects (snd (visualize_ndvi results rows cols outfile w)) = objects w) /\
  objects (snd (pbind (run_example records preview_count)
                      (fun results => visualize_ndvi results rows cols outfile) w))
  = objects w.
Proof.
  split; [ apply frame_run_example | split ].
  - intro results. apply frame_visualize_ndvi.
  - apply frame_pbind; [ apply frame_run_example | ].
    intro results. apply frame_visualize_ndvi.
Qed.

Section NdviOfGeneratedRecords.
Context {RS : RandomSource} {LM : LibM}.

(** C10.  Every record of a returned grid, the cloud step having fired or
    not, has [red_665 >= 0.01] and [nir_842 >= 0.009]; the NDVI of the
    record is therefore defined, and it lies strictly between -1 and 1. *)
Theorem generate_ndvi_defined (rows cols seed : Z) (records : list SpectralRecord) :
  generate_spectral_grid rows cols seed = Ok records ->
  Forall (fun rec =>
            0.01 <= red_665 rec /\ 0.009 <= nir_842 rec /\
            ~ nir_842 rec + red_665 rec == 0 /\
            exists v, ndvi (red_665 rec) (nir_842 rec) = Some v /\ -1 < v /\ v < 1)
         records.
Proof.
  intro E. eapply Forall_impl; [ | apply (generate_records _ _ _ _ E) ].
  cbn. intros rec (r & c & _ & _ & _ & _ & _ & base & s & s' & Hb & _ & Hout).
  assert (H : 0.01 <= red_665 rec /\ 0.009 <= nir_842 rec).
  { destruct Hb as (_ & _ & Hred & _ & _ & Hnir & _).
    unfold cloud_outcome in Hout. destruct (cloud_fires s).
    - destruct Hout as (fv & fn & Hfv & Hfn & Eb).
      injection Eb as _ _ -> _ _ -> _ _ _. split; nra.
    - rewrite <- Hout in Hred, Hnir. cbn in Hred, Hnir. split; lra. }
  destruct H as [Hred Hnir].
  split; [ exact Hred | split; [ exact Hnir | split; [ lra | ] ] ].
  apply ndvi_positive; lra.
Qed.

End NdviOfGeneratedRecords.

(** ** Numbers written and read back *)

Lemma parse_digits_uint d acc count :
  parse_digits (NilEmpty.string_of_uint d) acc count
  = Some (uint_value d acc, (count + Decimal.nb_digits d)%nat).
Proof.
  revert acc count. induction d; intros acc count; cbn [NilEmpty.string_of_uint parse_digits uint_value Decimal.nb_digits];
    [ now rewrite Nat.add_0_r | .. ];
    (change (digit_value _) with (Some 0%Z) || change (digit_value _) with (Some 1%Z)
     || change (digit_value _) with (Some 2%Z) || change (digit_value _) with (Some 3%Z)
     || change (digit_value _) with (Some 4%Z) || change (digit_value _) with (Some 5%Z)
     || change (digit_value _) with (Some 6%Z) || change (digit_value _) with (Some 7%Z)
     || change (digit_value _) with (Some 8%Z) || change (digit_value _) with (Some 9%Z));
    cbv iota beta; rewrite IHd; f_equal; f_equal; lia.
Qed.

Lemma of_uint_acc_value d p :
  Z.pos (Pos.of_uint_acc d p) = uint_value d (Z.pos p).
Proof.
  revert p. induction d; intro p; cbn [Pos.of_uint_acc uint_value];
    [ reflexivity | rewrite IHd; f_equal; lia .. ].
Qed.

Lemma of_uint_value d : Z.of_N (Pos.of_uint d) = uint_value d 0.
Proof.
  induction d; cbn [Pos.of_uint uint_value]; [ reflexivity | exact IHd | .. ];
    cbn [Z.of_N]; rewrite of_uint_acc_value; reflexivity.
Qed.

Lemma uint_value_to_uint n : uint_value (N.to_uint n) 0 = Z.of_N n.
Proof.
  rewrite <- of_uint_value. change (Pos.of_uint (N.to_uint n)) with (N.of_uint (N.to_uint n)).
  now rewrite DecimalN.Unsigned.of_to.
Qed.

Lemma nb_digits_to_uint n : exists k, Decimal.nb_digits (N.to_uint n) = S k.
Proof.
  destruct n as [ | p ]; cbn; [ now exists O | ].
  pose proof (DecimalPos.Unsigned.to_uint_nonnil p) as H.
  destruct (Pos.to_uint p); [ contradiction | cbn; eauto .. ].
Qed.

Lemma parse_digits_str_int n :
  (0 <= n)%Z -> exists k, parse_digits (str_int n) 0 0 = Some (n, S k).
Proof.
  intro H. rewrite (str_int_nonneg n H), parse_digits_uint, uint_value_to_uint.
  destruct (nb_digits_to_uint (Z.to_N n)) as (k & ->).
  exists k. now rewrite Z2N.id.
Qed.

(** The first character of a numeral is a digit. *)
Lemma split_sign_uint d rest :
  d <> Decimal.Nil ->
  split_sign (NilEmpty.string_of_uint d ++ rest)
  = (false, (NilEmpty.string_of_uint d ++ rest)%string).
Proof. intro H. destruct d; [ contradiction | reflexivity .. ]. Qed.

Lemma to_uint_nonnil n : N.to_uint n <> Decimal.Nil.
Proof.
  destruct n as [ | p ]; cbn; [ discriminate | apply DecimalPos.Unsigned.to_uint_nonnil ].
Qed.

Lemma append_empty_r s : (s ++ EmptyString)%string = s.
Proof. induction s; cbn; [ reflexivity | now rewrite IHs ]. Qed.

Lemma parse_int_str_int n : parse_int (str_int n) = Ok n.
Proof.
  destruct (Z_lt_le_dec n 0) as [Hneg | Hpos].
  - destruct n as [ | p | p ]; try lia.
    unfold parse_int, str_int. cbn [Z.to_int NilZero.string_of_int].
    unfold NilZero.string_of_uint.
    pose proof (DecimalPos.Unsigned.to_uint_nonnil p) as Hp.
    replace (match Pos.to_uint p with Decimal.Nil => "0"%string | _ => NilEmpty.string_of_uint (Pos.to_uint p) end)
      with (NilEmpty.string_of_uint (Pos.to_uint p))
      by (destruct (Pos.to_uint p); [ contradiction | reflexivity .. ]).
    cbn [split_sign Ascii.eqb Bool.eqb].
    rewrite parse_digits_uint.
    change (Pos.to_uint p) with (N.to_uint (N.pos p)).
    rewrite uint_value_to_uint.
    destruct (nb_digits_to_uint (N.pos p)) as (k & ->). reflexivity.
  - unfold parse_int.
    rewrite (str_int_nonneg n Hpos).
    rewrite <- (append_empty_r (NilEmpty.string_of_uint _)).
    rewrite split_sign_uint by apply to_uint_nonnil.
    rewrite append_empty_r, parse_digits_uint, uint_value_to_uint.
    destruct (nb_digits_to_uint (Z.to_N n)) as (k & ->).
    now rewrite Z2N.id.
Qed.

Lemma round_half_even_close y :
  inject_Z (round_half_even y) - y <= 1 # 2 /\ y - inject_Z (round_half_even y) <= 1 # 2.
Proof.
  unfold round_half_even.
  pose proof (Qfloor_le y) as Hlo. pose proof (Qlt_floor y) as Hhi.
  rewrite inject_Z_plus in Hhi. change (inject_Z 1) with 1 in Hhi.
  destruct (Qcompare (y - inject_Z (Qfloor y)) (1 # 2)) eqn:E.
  - apply Qeq_alt in E.
    destruct (Z.even (Qfloor y)); [ | rewrite inject_Z_plus; change (inject_Z 1) with 1 ];
      split; lra.
  - apply Qlt_alt in E. split; lra.
  - apply Qgt_alt in E. rewrite inject_Z_plus. change (inject_Z 1) with 1. split; lra.
Qed.

Lemma round_half_even_nonneg y : 0 <= y -> (0 <= round_half_even y)%Z.
Proof.
  intro H. unfold round_half_even.
  assert (Hf : (0 <= Qfloor y)%Z).
  { change 0%Z with (Qfloor 0). now apply Qfloor_resp_le. }
  destruct (Qcompare _ _); [ destruct (Z.even _) | | ]; lia.
Qed.

Lemma round_decimals_close x :
  Qabs (round_decimals 4 x - x) <= 5 # 100000.
Proof.
  unfold round_decimals. change (10 ^ Z.of_nat 4)%Z with 10000%Z.
  destruct (round_half_even_close (Qabs x * inject_Z 10000)) as [H1 H2].
  set (n := inject_Z (round_half_even (Qabs x * inject_Z 10000))) in *.
  change (inject_Z 10000) with 10000 in *.
  apply Qabs_case; intro Hs; destruct (Qltb x 0) eqn:E;
    [ apply Qltb_lt in E | apply Qltb_ge in E | apply Qltb_lt in E | apply Qltb_ge in E ].
  all: try (rewrite (Qabs_neg x) in H1, H2 by lra).
  all: try (rewrite (Qabs_pos x) in H1, H2 by lra).
  all: assert (Hd : n / 10000 == n * (1 # 10000)) by (field; lra).
  all: rewrite Hd in *; lra.
Qed.

Lemma split_point_uint d rest :
  split_point (NilEmpty.string_of_uint d ++ String "." rest)
  = (NilEmpty.string_of_uint d, Some rest).
Proof.
  induction d; cbn [NilEmpty.string_of_uint String.append split_point];
    [ reflexivity | cbn [Ascii.eqb Bool.eqb]; rewrite IHd; reflexivity .. ].
Qed.

Lemma uint_value_lower d acc :
  (0 <= acc)%Z ->
  (acc * 10 ^ Z.of_nat (Decimal.nb_digits d) <= uint_value d acc)%Z.
Proof.
  revert acc. induction d; intros acc Hacc;
    cbn [uint_value Decimal.nb_digits];
    [ cbn; lia | rewrite Nat2Z.inj_succ, Z.pow_succ_r by lia .. ];
    match goal with
    | |- (_ <= uint_value _ ?a)%Z =>
        specialize (IHd a ltac:(lia)); nia
    end.
Qed.

Lemma to_uint_normal n : Decimal.unorm (N.to_uint n) = N.to_uint n.
Proof.
  rewrite <- DecimalN.Unsigned.to_of. now rewrite DecimalN.Unsigned.of_to.
Qed.

(** A numeral without leading zeros is at least the power of ten of its
    length. *)
Lemma normal_lower d :
  Decimal.unorm d = d -> (2 <= Decimal.nb_digits d)%nat ->
  (10 ^ Z.of_nat (Decimal.nb_digits d - 1) <= uint_value d 0)%Z.
Proof.
  intros Hnorm Hlen.
  destruct d as [ | l | l | l | l | l | l | l | l | l | l ];
    cbn [Decimal.nb_digits] in *; [ lia | | .. ];
    rewrite ?Nat.sub_succ, ?Nat.sub_0_r.
  1: { exfalso. rewrite unorm_D0 in Hnorm.
       assert (Hl : l <> Decimal.Nil) by (intros ->; cbn in Hlen; lia).
       pose proof (nb_digits_unorm l Hl) as H. rewrite Hnorm in H.
       cbn [Decimal.nb_digits] in H. lia. }
  all: cbn [uint_value];
    match goal with
    | |- (_ <= uint_value _ ?a)%Z =>
        pose proof (uint_value_lower l a ltac:(lia)) as H
    end;
    assert (0 < 10 ^ Z.of_nat (Decimal.nb_digits l))%Z by (apply Z.pow_pos_nonneg; lia);
    nia.
Qed.

Lemma nb_digits_bound n k :
  (Z.of_N n < 10 ^ Z.of_nat k)%Z -> (1 <= k)%nat ->
  (Decimal.nb_digits (N.to_uint n) <= k)%nat.
Proof.
  intros Hn Hk.
  destruct (le_lt_dec (Decimal.nb_digits (N.to_uint n)) k) as [Hle | Hgt]; [ exact Hle | ].
  exfalso.
  pose proof (normal_lower (N.to_uint n) (to_uint_normal n) ltac:(lia)) as H.
  rewrite uint_value_to_uint in H.
  assert (10 ^ Z.of_nat k <= 10 ^ Z.of_nat (Decimal.nb_digits (N.to_uint n) - 1))%Z
    by (apply Z.pow_le_mono_r; lia).
  lia.
Qed.

Lemma length_string_of_uint d :
  String.length (NilEmpty.string_of_uint d) = Decimal.nb_digits d.
Proof. induction d; cbn; [ reflexivity | now rewrite IHd .. ]. Qed.

Lemma uint_value_zeros k d : uint_value (Nat.iter k Decimal.D0 d) 0 = uint_value d 0.
Proof. induction k as [ | k IH ]; [ reflexivity | exact IH ]. Qed.

Lemma parse_digits_fraction f :
  (0 <= f < 10000)%Z -> parse_digits (zfill 4 (str_int f)) 0 0 = Some (f, 4%nat).
Proof.
  intro H. unfold zfill. rewrite (str_int_nonneg f) by lia.
  rewrite zeros_string_of_uint, parse_digits_uint, uint_value_zeros.
  rewrite uint_value_to_uint, Z2N.id by lia.
  rewrite nb_digits_iter_D0, length_string_of_uint.
  pose proof (nb_digits_bound (Z.to_N f) 4) as Hb.
  rewrite Z2N.id in Hb by lia. specialize (Hb ltac:(cbn; lia) ltac:(lia)).
  do 2 f_equal. lia.
Qed.

Lemma parse_float_format_fixed x :
  exists q, parse_float (format_fixed 4 x) = Ok q /\ q == round_decimals 4 x.
Proof.
  unfold format_fixed, round_decimals.
  change (10 ^ Z.of_nat 4)%Z with 10000%Z.
  set (n := round_half_even (Qabs x * inject_Z 10000)).
  assert (Hn : (0 <= n)%Z).
  { apply round_half_even_nonneg. pose proof (Qabs_nonneg x).
    change (inject_Z 10000) with 10000. nra. }
  assert (Hip : (0 <= n / 10000)%Z) by (apply Z.div_pos; lia).
  assert (Hfp : (0 <= n mod 10000 < 10000)%Z) by (apply Z.mod_pos_bound; lia).
  destruct (parse_digits_str_int (n / 10000) Hip) as (k & Ei).
  pose proof (parse_digits_fraction (n mod 10000) Hfp) as Ef.
  set (body := (str_int (n / 10000) ++ String "." (zfill 4 (str_int (n mod 10000))))%string).
  assert (Es : split_sign body = (false, body)).
  { unfold body. rewrite (str_int_nonneg _ Hip). apply split_sign_uint, to_uint_nonnil. }
  assert (Ep : split_point body
               = (str_int (n / 10000), Some (zfill 4 (str_int (n mod 10000))))).
  { unfold body. rewrite (str_int_nonneg _ Hip). apply split_point_uint. }
  assert (Hv : inject_Z (n / 10000) + inject_Z (n mod 10000) / inject_Z 10000
               == inject_Z n / inject_Z 10000).
  { rewrite (Z.div_mod n 10000) at 3 by lia.
    rewrite inject_Z_plus, inject_Z_mult.
    change (inject_Z 10000) with 10000. field. }
  destruct (Qltb x 0).
  - exists (- (inject_Z (n / 10000) + inject_Z (n mod 10000) / inject_Z 10000)).
    split; [ | now rewrite Hv ].
    unfold parse_float. cbn [split_sign Ascii.eqb Bool.eqb].
    rewrite Ep, Ei, Ef. reflexivity.
  - exists (inject_Z (n / 10000) + inject_Z (n mod 10000) / inject_Z 10000).
    split; [ | exact Hv ].
    unfold parse_float. rewrite Es, Ep, Ei, Ef. reflexivity.
Qed.

(** ** Fields that need no quoting *)

Lemma string_exists_app p a b :
  string_exists p (a ++ b) = (string_exists p a || string_exists p b)%bool.
Proof.
  induction a as [ | c a IH ]; cbn; [ reflexivity | ].
  now rewrite IH, orb_assoc.
Qed.

Lemma plain_uint d : plain (NilEmpty.string_of_uint d).
Proof. unfold plain. induction d; cbn; [ reflexivity | exact IHd .. ]. Qed.

Lemma plain_str_int n : plain (str_int n).
Proof.
  destruct (Z_lt_le_dec n 0) as [Hneg | Hpos].
  - destruct n as [ | p | p ]; try lia.
    unfold str_int. cbn [Z.to_int NilZero.string_of_int].
    unfold plain. cbn [string_exists]. unfold NilZero.string_of_uint.
    destruct (Pos.to_uint p) eqn:E; try reflexivity;
      rewrite <- E; apply plain_uint.
  - rewrite (str_int_nonneg n Hpos). apply plain_uint.
Qed.

Lemma plain_zeros k : plain (zeros k).
Proof. unfold plain. induction k; cbn; [ reflexivity | exact IHk ]. Qed.

Lemma plain_app a b : plain a -> plain b -> plain (a ++ b).
Proof. unfold plain. intros Ha Hb. now rewrite string_exists_app, Ha, Hb. Qed.

Lemma plain_zfill w s : plain s -> plain (zfill w s).
Proof. intro H. unfold zfill. apply plain_app; [ apply plain_zeros | exact H ]. Qed.

Lemma plain_format_fixed prec x : plain (format_fixed prec x).
Proof.
  unfold format_fixed.
  assert (H : forall a b, plain (str_int a ++ String "." (zfill prec (str_int b)))).
  { intros a b. apply plain_app; [ apply plain_str_int | ].
    unfold plain. cbn [string_exists]. apply plain_zfill, plain_str_int. }
  destruct (Qltb x 0); [ | apply H ].
  unfold plain. cbn [string_exists]. apply H.
Qed.

Lemma plain_plot_id_of r c : (0 <= r)%Z -> (0 <= c)%Z -> plain (plot_id_of r c).
Proof.
  intros Hr Hc. unfold plot_id_of. rewrite !format_03d_nonneg by lia.
  unfold plain. cbn [string_exists String.append].
  apply plain_app; [ apply plain_zfill, plain_str_int | ].
  unfold plain. cbn [string_exists]. apply plain_zfill, plain_str_int.
Qed.

Lemma write_field_plain s : plain s -> write_field s = s.
Proof. unfold plain, write_field. now intros ->. Qed.

Lemma map_write_field_plain fs : Forall plain fs -> map write_field fs = fs.
Proof.
  induction 1 as [ | f fs Hf _ IH ]; cbn; [ reflexivity | ].
  now rewrite write_field_plain, IH.
Qed.

(** A row of at least two plain fields is written as it is, with commas. *)
Lemma writerow_plain f1 f2 fs :
  Forall plain (f1 :: f2 :: fs) ->
  writerow (f1 :: f2 :: fs)
  = (join "," (f1 :: f2 :: fs) ++ String CR (String LF EmptyString))%string.
Proof.
  intro H. unfold writerow. rewrite (map_write_field_plain _ H).
  destruct f1; reflexivity.
Qed.

(** ** Lines of a file *)

Lemma plain_no_newline s : plain s -> no_newline s.
Proof.
  unfold plain, no_newline. induction s as [ | c s IH ]; cbn; [ reflexivity | ].
  intro H. apply orb_false_elim in H as [Hc Hs].
  unfold is_special in Hc. apply orb_false_elim in Hc as [_ Hc].
  now rewrite Hc, IH.
Qed.

Lemma no_newline_app a b : no_newline a -> no_newline b -> no_newline (a ++ b).
Proof. unfold no_newline. intros Ha Hb. now rewrite string_exists_app, Ha, Hb. Qed.

Lemma no_newline_join fs : Forall plain fs -> no_newline (join "," fs).
Proof.
  induction 1 as [ | f fs Hf Hfs IH ]; [ reflexivity | ].
  destruct fs as [ | g fs ]; cbn [join]; [ now apply plain_no_newline | ].
  apply no_newline_app; [ now apply plain_no_newline | ].
  apply no_newline_app; [ reflexivity | exact IH ].
Qed.

Lemma universal_newlines_line line rest :
  no_newline line ->
  universal_newlines (line ++ String CR (String LF rest))
  = (line ++ String LF (universal_newlines rest))%string.
Proof.
  unfold no_newline. induction line as [ | c line IH ]; cbn [String.append string_exists].
  - intros _. reflexivity.
  - intro H. apply orb_false_elim in H as [Hc Hl].
    unfold is_newline in Hc. apply orb_false_elim in Hc as [Hcr _].
    cbn [universal_newlines]. rewrite Hcr. now rewrite IH.
Qed.

Lemma append_assoc (a b c : string) : ((a ++ b) ++ c = a ++ (b ++ c))%string.
Proof. induction a; cbn; [ reflexivity | now rewrite IHa ]. Qed.

Lemma split_lines_line line rest cur :
  no_newline line ->
  split_lines_aux (line ++ String LF rest) cur
  = (cur ++ line ++ String LF EmptyString)%string :: split_lines_aux rest EmptyString.
Proof.
  unfold no_newline. revert cur.
  induction line as [ | c line IH ]; intro cur; cbn [String.append string_exists].
  - intros _. reflexivity.
  - intro H. apply orb_false_elim in H as [Hc Hl].
    unfold is_newline in Hc. apply orb_false_elim in Hc as [_ Hlf].
    cbn [split_lines_aux]. rewrite Hlf, (IH _ Hl).
    now rewrite append_assoc.
Qed.

Lemma file_lines_crlf_text lines :
  Forall no_newline lines ->
  file_lines (crlf_text lines)
  = map (fun line => (line ++ String LF EmptyString)%string) lines.
Proof.
  unfold file_lines. induction 1 as [ | line lines Hl _ IH ]; [ reflexivity | ].
  cbn [crlf_text map]. rewrite (universal_newlines_line _ _ Hl).
  rewrite (split_lines_line _ _ _ Hl), IH. reflexivity.
Qed.

Lemma concat_crlf_text (lines : list string) :
  String.concat EmptyString
    (map (fun line => (line ++ String CR (String LF EmptyString))%string) lines)
  = crlf_text lines.
Proof.
  induction lines as [ | line lines IH ]; [ reflexivity | ].
  cbn [map crlf_text]. rewrite <- IH.
  destruct lines as [ | l2 lines ]; [ reflexivity | ].
  cbn [map String.concat]. rewrite append_assoc. reflexivity.
Qed.

(** ** The reader on a line of unquoted fields *)

Lemma special_false c :
  is_special c = false ->
  Ascii.eqb c comma = false /\ Ascii.eqb c dquote = false /\ is_newline c = false.
Proof.
  unfold is_special. intro H.
  apply orb_false_elim in H as [H Hn]. apply orb_false_elim in H as [Hc Hq]. auto.
Qed.

Lemma process_plain_in_field c cur done :
  is_special c = false ->
  parse_process_char (Some c) (mkReader IN_FIELD cur done)
  = Ok (mkReader IN_FIELD (cur ++ String c EmptyString) done).
Proof.
  intro H. apply special_false in H as (Hc & Hq & Hn).
  unfold parse_process_char. cbn [state]. now rewrite Hn, Hc.
Qed.

Lemma process_plain_start c st done :
  st = START_FIELD \/ st = START_RECORD ->
  is_special c = false ->
  parse_process_char (Some c) (mkReader st EmptyString done)
  = Ok (mkReader IN_FIELD (String c EmptyString) done).
Proof.
  intros Hst H. apply special_false in H as (Hc & Hq & Hn).
  unfold parse_process_char.
  destruct Hst as [-> | ->]; cbn [state]; rewrite Hn; [ | cbn [state] ];
    now rewrite Hq, Hc.
Qed.

Lemma in_field_plain f tail cur done :
  plain f ->
  parse_line (f ++ tail) (mkReader IN_FIELD cur done)
  = parse_line tail (mkReader IN_FIELD (cur ++ f) done).
Proof.
  unfold plain. revert cur.
  induction f as [ | c f IH ]; intros cur H; cbn [String.append].
  - now rewrite append_empty_r.
  - cbn [string_exists] in H. apply orb_false_elim in H as [Hc Hf].
    cbn [parse_line]. rewrite (process_plain_in_field _ _ _ Hc). cbn [result_bind].
    rewrite (IH _ Hf). now rewrite append_assoc.
Qed.

(** From the start of a field to the end of the line. *)
Lemma parse_fields f rest done :
  Forall plain (f :: rest) ->
  parse_line (join "," (f :: rest) ++ String LF EmptyString)
             (mkReader START_FIELD EmptyString done)
  = Ok (mkReader START_RECORD EmptyString (done ++ f :: rest)).
Proof.
  revert f done. induction rest as [ | g rest IH ]; intros f done H.
  - apply Forall_inv in H. cbn [join]. destruct f as [ | c f ].
    + reflexivity.
    + unfold plain in H. cbn [string_exists] in H.
      apply orb_false_elim in H as [Hc Hf].
      cbn [String.append parse_line].
      rewrite (process_plain_start c START_FIELD done (or_introl eq_refl) Hc).
      cbn [result_bind]. rewrite (in_field_plain _ _ _ _ Hf). reflexivity.
  - pose proof (Forall_inv H) as Hf. apply Forall_inv_tail in H.
    change (join "," (f :: g :: rest))
      with (f ++ String comma (join "," (g :: rest)))%string.
    rewrite append_assoc. cbn [String.append].
    destruct f as [ | c f ].
    + cbn [String.append parse_line].
      change (parse_process_char (Some comma) (mkReader START_FIELD EmptyString done))
        with (Ok (mkReader START_FIELD EmptyString (done ++ [EmptyString]))).
      cbn [result_bind]. rewrite (IH _ _ H). now rewrite <- List.app_assoc.
    + unfold plain in Hf. cbn [string_exists] in Hf.
      apply orb_false_elim in Hf as [Hc Hf].
      cbn [String.append parse_line].
      rewrite (process_plain_start c START_FIELD done (or_introl eq_refl) Hc).
      cbn [result_bind]. rewrite (in_field_plain _ _ _ _ Hf).
      cbn [parse_line].
      change (parse_process_char (Some comma)
                (mkReader IN_FIELD (String c EmptyString ++ f) done))
        with (Ok (mkReader START_FIELD EmptyString
                           (done ++ [(String c EmptyString ++ f)%string]))).
      cbn [result_bind]. rewrite (IH _ _ H). now rewrite <- List.app_assoc.
Qed.

(** A whole line of at least two fields. *)
Lemma parse_row f g rest :
  Forall plain (f :: g :: rest) ->
  parse_line (join "," (f :: g :: rest) ++ String LF EmptyString)
             (mkReader START_RECORD EmptyString [])
  = Ok (mkReader START_RECORD EmptyString (f :: g :: rest)).
Proof.
  intro H. pose proof (Forall_inv H) as Hf. apply Forall_inv_tail in H.
  change (join "," (f :: g :: rest))
    with (f ++ String comma (join "," (g :: rest)))%string.
  rewrite append_assoc. cbn [String.append].
  destruct f as [ | c f ].
  - cbn [String.append parse_line].
    change (parse_process_char (Some comma) (mkReader START_RECORD EmptyString []))
      with (Ok (mkReader START_FIELD EmptyString [EmptyString])).
    cbn [result_bind]. now rewrite (parse_fields _ _ _ H).
  - unfold plain in Hf. cbn [string_exists] in Hf.
    apply orb_false_elim in Hf as [Hc Hf].
    cbn [String.append parse_line].
    rewrite (process_plain_start c START_RECORD [] (or_intror eq_refl) Hc).
    cbn [result_bind]. rewrite (in_field_plain _ _ _ _ Hf).
    cbn [parse_line].
    change (parse_process_char (Some comma)
              (mkReader IN_FIELD (String c EmptyString ++ f) []))
      with (Ok (mkReader START_FIELD EmptyString [(String c EmptyString ++ f)%string])).
    cbn [result_bind]. now rewrite (parse_fields _ _ _ H).
Qed.

Lemma reader_next_plain r lines :
  plain_row r -> reader_next (row_line r :: lines) = Ok (Some r, lines).
Proof.
  intros [Hlen H]. destruct r as [ | f [ | g rest ] ]; cbn in Hlen; try lia.
  unfold reader_next, row_line. cbn [reader_next_aux].
  now rewrite (parse_row _ _ _ H).
Qed.

Lemma reader_rows_plain rows fuel :
  (List.length rows < fuel)%nat ->
  Forall plain_row rows ->
  reader_rows fuel (map row_line rows) = Ok rows.
Proof.
  revert fuel. induction rows as [ | r rows IH ]; intros fuel Hfuel H.
  - destruct fuel; [ cbn in Hfuel; lia | reflexivity ].
  - destruct fuel; cbn in Hfuel; [ lia | ].
    cbn [map reader_rows].
    rewrite (reader_next_plain _ _ (Forall_inv H)). cbn [result_bind].
    rewrite (IH fuel ltac:(lia) (Forall_inv_tail H)). reflexivity.
Qed.

Lemma filter_plain_rows rows :
  Forall plain_row rows ->
  filter (fun r : list string => match r with [] => false | _ => true end) rows = rows.
Proof.
  induction 1 as [ | r rows [Hlen _] _ IH ]; cbn; [ reflexivity | ].
  destruct r; cbn in Hlen; [ lia | now rewrite IH ].
Qed.

Lemma dict_reader_plain fieldnames rows :
  Forall plain_row (fieldnames :: rows) ->
  dict_reader (map row_line (fieldnames :: rows))
  = Ok (map (row_dict fieldnames) rows).
Proof.
  intro H. unfold dict_reader.
  rewrite reader_rows_plain; [ | rewrite length_map; lia | exact H ].
  cbn [result_bind]. now rewrite (filter_plain_rows _ (Forall_inv_tail H)).
Qed.

(** ** The codec on unquoted identifiers *)

Lemma header_plain : plain_row header.
Proof. split; [ cbn; lia | repeat constructor ]. Qed.

Lemma record_fields_plain rec : plain (plot_id rec) -> plain_row (record_fields rec).
Proof.
  intro H. split; [ cbn; lia | ].
  unfold record_fields, record_row. cbn [map cell_text].
  repeat constructor; auto using plain_str_int, plain_format_fixed.
Qed.

Lemma writerow_plain_row r :
  plain_row r ->
  writerow r = (join "," r ++ String CR (String LF EmptyString))%string.
Proof.
  intros [Hlen H]. destruct r as [ | f [ | g rest ] ]; cbn in Hlen; try lia.
  now apply writerow_plain.
Qed.

Lemma save_records_csv_text records :
  Forall (fun rec => plain (plot_id rec)) records ->
  save_records_csv records
  = crlf_text (map (join ",") (header :: map record_fields records)).
Proof.
  intro H. unfold save_records_csv.
  rewrite (writerow_plain_row _ header_plain).
  assert (E : map (fun rec => writerow (map cell_text (record_row rec))) records
              = map (fun line => (line ++ String CR (String LF EmptyString))%string)
                    (map (join ",") (map record_fields records))).
  { rewrite !map_map. apply map_ext_in. intros rec Hin.
    rewrite Forall_forall in H.
    apply (writerow_plain_row _ (record_fields_plain rec (H rec Hin))). }
  rewrite E, concat_crlf_text. cbn [map crlf_text].
  now rewrite append_assoc.
Qed.

Lemma load_record_of_row p r c b1 b2 b3 b4 b5 b6 b7 b8 b9 :
  load_record (row_dict header [p; r; c; b1; b2; b3; b4; b5; b6; b7; b8; b9])
  = result_bind (parse_int r) (fun r' =>
    result_bind (parse_int c) (fun c' =>
    result_bind (parse_float b1) (fun v1 =>
    result_bind (parse_float b2) (fun v2 =>
    result_bind (parse_float b3) (fun v3 =>
    result_bind (parse_float b4) (fun v4 =>
    result_bind (parse_float b5) (fun v5 =>
    result_bind (parse_float b6) (fun v6 =>
    result_bind (parse_float b7) (fun v7 =>
    result_bind (parse_float b8) (fun v8 =>
    result_bind (parse_float b9) (fun v9 =>
    Ok (mkSpectralRecord p r' c' v1 v2 v3 v4 v5 v6 v7 v8 v9)))))))))))).
Proof. reflexivity. Qed.

Lemma load_record_fields rec :
  exists loaded,
    load_record (row_dict header (record_fields rec)) = Ok loaded /\
    same_to_4_decimals rec loaded.
Proof.
  unfold record_fields, record_row. cbn [map cell_text].
  rewrite load_record_of_row, !parse_int_str_int. cbn [result_bind].
  destruct (parse_float_format_fixed (blue_480 rec)) as (v1 & -> & H1).
  destruct (parse_float_format_fixed (green_560 rec)) as (v2 & -> & H2).
  destruct (parse_float_format_fixed (red_665 rec)) as (v3 & -> & H3).
  destruct (parse_float_format_fixed (red_edge_705 rec)) as (v4 & -> & H4).
  destruct (parse_float_format_fixed (red_edge_740 rec)) as (v5 & -> & H5).
  destruct (parse_float_format_fixed (nir_842 rec)) as (v6 & -> & H6).
  destruct (parse_float_format_fixed (nir2_865 rec)) as (v7 & -> & H7).
  destruct (parse_float_format_fixed (swir_1610 rec)) as (v8 & -> & H8).
  destruct (parse_float_format_fixed (swir_2190 rec)) as (v9 & -> & H9).
  cbn [result_bind]. eexists. split; [ reflexivity | ].
  unfold same_to_4_decimals. cbn. tauto.
Qed.

Lemma load_rows_fields records :
  exists loaded,
    load_rows (map (row_dict header) (map record_fields records)) = Ok loaded /\
    Forall2 same_to_4_decimals records loaded.
Proof.
  induction records as [ | rec records (loaded & E & HF) ].
  - exists []. split; [ reflexivity | constructor ].
  - destruct (load_record_fields rec) as (rec' & E' & H').
    exists (rec' :: loaded). cbn [map load_rows]. rewrite E', E.
    split; [ reflexivity | now constructor ].
Qed.

(** Records whose identifiers need no quoting come back from the file in
    the same order, with the same identifier, row and column, and with
    every band rounded to four decimals. *)
Lemma load_save_plain records :
  Forall (fun rec => plain (plot_id rec)) records ->
  exists loaded,
    load_records_csv (save_records_csv records) = Ok loaded /\
    Forall2 same_to_4_decimals records loaded.
Proof.
  intro H. unfold load_records_csv.
  rewrite (save_records_csv_text _ H).
  assert (Hrows : Forall plain_row (header :: map record_fields records)).
  { constructor; [ apply header_plain | ].
    apply Forall_map. eapply Forall_impl; [ | exact H ].
    apply record_fields_plain. }
  rewrite file_lines_crlf_text.
  - rewrite map_map. change (fun x => (join "," x ++ String LF EmptyString)%string) with row_line.
    rewrite (dict_reader_plain _ _ Hrows). cbn [result_bind].
    apply load_rows_fields.
  - apply Forall_map. eapply Forall_impl; [ | exact Hrows ].
    intros r [_ Hr]. now apply no_newline_join.
Qed.

Section GeneratedRoundTrip.
Context {RS : RandomSource} {LM : LibM}.

(** The round trip of the specification: a generated grid comes back from
    the file with its numeric fields rounded to four decimals. *)
Lemma load_save_generated rows cols seed records :
  generate_spectral_grid rows cols seed = Ok records ->
  exists loaded,
    load_records_csv (save_records_csv records) = Ok loaded /\
    Forall2 same_to_4_decimals records loaded.
Proof.
  intro E. apply load_save_plain.
  eapply Forall_impl; [ | apply (generate_records _ _ _ _ E) ].
  cbn. intros rec (r & c & Hr & Hc & _ & _ & -> & _).
  apply plain_plot_id_of; lia.
Qed.

End GeneratedRoundTrip.

(** ** The codec on a plot identifier that holds a carriage return *)

(** C8.  The round trip does not hold for every list of records.  The
    record below has a carriage return in its [plot_id] and bands that have
    four decimals already.  [save_records_csv] writes the carriage return as
    it is, inside a quoted field; [load_records_csv] reads the file with
    universal newlines, and the record that comes back has a line feed in
    its place: the identifier is not the one that was saved, while the row,
    the column and the bands are.  Lists whose identifiers need no quoting,
    the generated grids among them, do make the round trip, as shown
    above. *)
Theorem load_save_carriage_return :
  let rec :=
    mkSpectralRecord (String "R" (String CR "1")) 0 0
      0.1 0.2 0.3 0.4 0.5 0.6 0.7 0.8 0.9 in
  exists loaded,
    load_records_csv (save_records_csv [rec]) = Ok [loaded] /\
    plot_id loaded = String "R" (String LF "1") /\
    plot_id loaded <> plot_id rec /\
    position loaded = position rec /\
    blue_480 loaded == blue_480 rec /\ green_560 loaded == green_560 rec /\
    red_665 loaded == red_665 rec /\ red_edge_705 loaded == red_edge_705 rec /\
    red_edge_740 loaded == red_edge_740 rec /\ nir_842 loaded == nir_842 rec /\
    nir2_865 loaded == nir2_865 rec /\ swir_1610 loaded == swir_1610 rec /\
    swir_2190 loaded == swir_2190 rec.
Proof.
  cbv zeta. eexists. split; [ vm_compute; reflexivity | ].
  cbn [plot_id position row col blue_480 green_560 red_665 red_edge_705
       red_edge_740 nir_842 nir2_865 swir_1610 swir_2190].
  split; [ reflexivity | split; [ discriminate | ] ].
  split; [ reflexivity | ].
  repeat split; reflexivity.
Qed.

(** The same record with an ordinary identifier comes back as it was. *)
Example load_save_plain_identifier :
  let rec := mkSpectralRecord "R001C001" 0 0 0.1 0.2 0.3 0.4 0.5 0.6 0.7 0.8 0.9 in
  exists loaded,
    load_records_csv (save_records_csv [rec]) = Ok [loaded] /\
    plot_id loaded = plot_id rec /\ position loaded = position rec /\
    red_665 loaded == red_665 rec /\ nir_842 loaded == nir_842 rec.
Proof.
  cbv zeta. eexists. split; [ vm_compute; reflexivity | ].
  repeat split; reflexivity.
Qed.

(** ** The claims at concrete inputs *)

Module Runs.

Import Toy.

(** The seeds 42 and 92 start the toy generator on the same stream, the
    state counting modulo 50 in [random()] and modulo 5 in [gauss()]. *)
Definition same_phase (s s' : Z) : Prop := (s mod 50 = s' mod 50)%Z.

Lemma same_phase_succ s s' : same_phase s s' -> same_phase (s + 1) (s' + 1).
Proof.
  unfold same_phase. intro H.
  rewrite (Z.add_mod s 1 50), (Z.add_mod s' 1 50) by lia. now rewrite H.
Qed.

Lemma same_phase_mod5 s s' : same_phase s s' -> (s mod 5 = s' mod 5)%Z.
Proof.
  unfold same_phase. intro H.
  rewrite <- (Z.mod_mod_divide s 50 5), <- (Z.mod_mod_divide s' 50 5), H;
    [ reflexivity | exists 10%Z; reflexivity .. ].
Qed.

Lemma generate_deterministic_run :
  exists first second,
    generate_spectral_grid 2 2 42 = first /\
    generate_spectral_grid 2 2 42 = second /\
    first = second /\
    generate_spectral_grid 2 2 92 = first.
Proof.
  eexists _, _. split; [ reflexivity | split; [ reflexivity | ] ].
  destruct (generate_deterministic 2 2 42 _ _ eq_refl eq_refl) as [H1 H2].
  split; [ exact H1 | ].
  apply (H2 source same_phase).
  - intros s s' H. cbn. unfold toy_random. cbn [fst snd].
    split; [ now rewrite H | now apply same_phase_succ ].
  - intros mu sigma s s' H. cbn. unfold toy_gauss. cbn [fst snd].
    split; [ now rewrite (same_phase_mod5 s s' H) | now apply same_phase_succ ].
  - reflexivity.
Defined.

Lemma generate_row_major_run :
  (0 < 2)%Z /\ (0 < 3)%Z /\
  exists records,
    generate_spectral_grid 2 3 42 = Ok records /\
    List.length records = Z.to_nat (2 * 3) /\
    map position records = row_major 2 3 /\
    forall r c, (0 <= r < 2)%Z -> (0 <= c < 3)%Z ->
      count_occ position_eq_dec (map position records) (r, c) = 1%nat.
Proof.
  split; [ lia | split; [ lia | ] ].
  apply (generate_row_major 2 3 42); lia.
Defined.

(** C3 as stated fails: with no row, or with a negative number of columns,
    the default-sized call returns the empty list instead of raising. *)
Lemma generate_nonpositive_returns_empty :
  generate_spectral_grid 0 140 1337 = Ok [] /\
  generate_spectral_grid 140 (-1) 1337 = Ok [].
Proof. split; vm_compute; reflexivity. Qed.

Lemma generate_nonpositive_dimension_run :
  ordinary_dimension (-3) /\ ordinary_dimension 5 /\
  ((-3 <= 0)%Z \/ (5 <= 0)%Z) /\ generate_spectral_grid (-3) 5 7 = Ok [].
Proof.
  assert (H1 : ordinary_dimension (-3)) by (unfold ordinary_dimension, dimension_limit; lia).
  assert (H2 : ordinary_dimension 5) by (unfold ordinary_dimension, dimension_limit; lia).
  split; [ exact H1 | split; [ exact H2 | split; [ left; lia | ] ] ].
  apply (generate_nonpositive_dimension (-3) 5 7 H1 H2). left. lia.
Defined.

(** With the seed 36 the cloud flag of the first cell fires. *)
Lemma generate_bands_run :
  exists records,
    generate_spectral_grid 1 2 36 = Ok records /\
    Forall (fun rec =>
              exists base s s',
                within_clamp base /\
                thin_cloud base s = Ok (bands_of rec, s') /\
                if cloud_fires s then
                  exists factor_vis factor_nir,
                    (1.05 <= factor_vis /\ factor_vis <= 1.12) /\
                    (0.90 <= factor_nir /\ factor_nir <= 0.96) /\
                    bands_of rec = cloud_scale factor_vis factor_nir base
                else bands_of rec = base)
           records.
Proof.
  eexists. split; [ vm_compute; reflexivity | ].
  apply (generate_bands_clamped_or_cloud_scaled 1 2 36).
  vm_compute; reflexivity.
Defined.

Lemma generate_plot_ids_run :
  exists records,
    generate_spectral_grid 2 2 36 = Ok records /\
    map plot_id records = [ "R001C001"; "R001C002"; "R002C001"; "R002C002" ]%string /\
    Forall (fun rec =>
              plot_id rec
              = (String "R" (zfill 3 (str_int (row rec + 1)))
                 ++ String "C" (zfill 3 (str_int (col rec + 1))))%string)
           records /\
    forall rec1 rec2,
      In rec1 records -> In rec2 records ->
      position rec1 <> position rec2 -> plot_id rec1 <> plot_id rec2.
Proof.
  eexists. split; [ vm_compute; reflexivity | ].
  split; [ reflexivity | ].
  apply (generate_plot_ids 2 2 36).
  vm_compute; reflexivity.
Defined.

Lemma cell_stress_run :
  (0 <= 1 < 4)%Z /\ (0 <= 2 < 4)%Z /\
  exists stress,
    cell_stress 4 4 1 2 = Ok stress /\
    stress == spec_stress 4 4 1 2 /\
    (0 <= stress /\ stress <= 1.6) /\
    forall s : rng, lift (cell_stress 4 4 1 2) s = Ok (stress, s).
Proof.
  split; [ lia | split; [ lia | ] ].
  apply (cell_stress_two_pockets 4 4 1 2); lia.
Defined.

Lemma generate_ndvi_run :
  exists records,
    generate_spectral_grid 1 2 36 = Ok records /\
    Forall (fun rec =>
              0.01 <= red_665 rec /\ 0.009 <= nir_842 rec /\
              ~ nir_842 rec + red_665 rec == 0 /\
              exists v, ndvi (red_665 rec) (nir_842 rec) = Some v /\ -1 < v /\ v < 1)
           records.
Proof.
  eexists. split; [ vm_compute; reflexivity | ].
  apply (generate_ndvi_defined 1 2 36).
  vm_compute; reflexivity.
Defined.

End Runs.

(** * Further properties of the code *)

(** ** Clamping and the index *)

(** X1.  [_clamp(value, lo, hi)] with [lo <= hi] returns [lo] for a value
    below the interval, [hi] for a value above it and the value itself
    inside it; with the bounds in the wrong order, [hi < lo], it returns
    [lo] whatever the value is. *)
Theorem clamp_cases (value lo hi : Q) :
  (lo <= hi ->
     (value < lo -> _clamp value lo hi == lo) /\
     (hi < value -> _clamp value lo hi == hi) /\
     (lo <= value /\ value <= hi -> _clamp value lo hi == value)) /\
  (hi < lo -> _clamp value lo hi == lo).
Proof.
  unfold _clamp, py_max, py_min.
  destruct (Qltb value hi) eqn:E1;
    [ apply Qltb_lt in E1 | apply Qltb_ge in E1 ];
    case_Qltb; repeat split; intros; lra.
Qed.

(** X2.  For reflectances that are not negative and not both zero, [ndvi]
    returns a number between -1 and 1; it is positive exactly when the
    near infrared is above the red, and zero exactly when the two are
    equal. *)
Theorem ndvi_range (red nir : Q) :
  0 <= red -> 0 <= nir -> ~ nir + red == 0 ->
  exists v,
    ndvi red nir = Some v /\ -1 <= v /\ v <= 1 /\
    (0 < v <-> red < nir) /\ (v == 0 <-> red == nir).
Proof.
  intros Hred Hnir Hden. exists ((nir - red) / (nir + red)).
  split; [ now apply ndvi_nonzero | ].
  assert (Hpos : 0 < nir + red) by lra.
  assert (E : (nir - red) / (nir + red) * (nir + red) == nir - red) by (field; lra).
  set (v := (nir - red) / (nir + red)) in *.
  repeat split; intros; nra.
Qed.

(** X3.  Swapping the two arguments of [ndvi] changes the sign of the
    result; where one order gives NaN the other gives NaN too. *)
Theorem ndvi_swap (red nir : Q) :
  same_float (ndvi nir red) (option_map Qopp (ndvi red nir)).
Proof.
  unfold ndvi.
  destruct (Qeq_bool (nir + red) 0) eqn:E.
  - apply Qeq_bool_iff in E.
    assert (E' : red + nir == 0) by lra.
    apply Qeq_bool_iff in E'. rewrite E'. exact I.
  - apply Qeq_bool_neq in E.
    destruct (Qeq_bool (red + nir) 0) eqn:E'.
    + apply Qeq_bool_iff in E'. exfalso. apply E. lra.
    + apply Qeq_bool_neq in E'. cbn. field; repeat split; assumption.
Qed.

(** ** The field summary *)

Lemma py_min_list_In x l : In (py_min_list x l) (x :: l).
Proof.
  unfold py_min_list. revert x. induction l as [ | y l IH ]; intro x; cbn [fold_left].
  - now left.
  - destruct (IH (py_min x y)) as [H | H].
    + rewrite <- H. unfold py_min. destruct (Qltb y x); cbn; auto.
    + cbn. auto.
Qed.

Lemma py_max_list_In x l : In (py_max_list x l) (x :: l).
Proof.
  unfold py_max_list. revert x. induction l as [ | y l IH ]; intro x; cbn [fold_left].
  - now left.
  - destruct (IH (py_max x y)) as [H | H].
    + rewrite <- H. unfold py_max. destruct (Qltb x y); cbn; auto.
    + cbn. auto.
Qed.

Lemma py_sum_bounds l h xs :
  Forall (fun x => l <= x /\ x <= h) xs ->
  inject_Z (Z.of_nat (List.length xs)) * l <= py_sum xs /\
  py_sum xs <= inject_Z (Z.of_nat (List.length xs)) * h.
Proof.
  induction 1 as [ | x xs [Hl Hh] _ [IH1 IH2] ].
  - unfold py_sum. cbn [fold_left List.length Z.of_nat]. change (inject_Z 0) with 0. split; lra.
  - unfold py_sum. cbn [fold_left List.length].
    rewrite py_sum_shift, Nat2Z.inj_succ. unfold Z.succ.
    rewrite inject_Z_plus. change (inject_Z 1) with 1. split; lra.
Qed.

Lemma summary_ordered (results : list NDVIResult) :
  valid_values results <> [] ->
  exists m l h,
    mean_ndvi (field_summary results) = Some m /\
    lo (field_summary results) = Some l /\
    hi (field_summary results) = Some h /\
    In l (valid_values results) /\ In h (valid_values results) /\
    l <= m /\ m <= h.
Proof.
  unfold field_summary.
  destruct (valid_values results) as [ | v rest ]; [ congruence | intros _ ].
  destruct (py_min_list_le v rest) as [H1 H2].
  destruct (py_max_list_ge v rest) as [H3 H4].
  assert (HF : Forall (fun x => py_min_list v rest <= x /\ x <= py_max_list v rest)
                      (v :: rest)).
  { constructor; [ split; assumption | ].
    rewrite Forall_forall in *. intros x Hx. split; auto. }
  destruct (py_sum_bounds _ _ _ HF) as [Hs1 Hs2].
  assert (Hn : 0 < inject_Z (Z.of_nat (List.length (v :: rest)))).
  { cbn [List.length]. rewrite Nat2Z.inj_succ. unfold Z.succ.
    rewrite inject_Z_plus. change (inject_Z 1) with 1.
    pose proof (Nat2Z.is_nonneg (List.length rest)) as Hn.
    rewrite Zle_Qle in Hn. change (inject_Z 0) with 0 in Hn. lra. }
  eexists _, _, _. repeat split; cbn [mean_ndvi lo hi].
  - apply py_min_list_In.
  - apply py_max_list_In.
  - apply Qle_shift_div_l; [ exact Hn | lra ].
  - apply Qle_shift_div_r; [ exact Hn | lra ].
Qed.

(** X4.  The field summary of lines 30-33: with no finite NDVI the mean,
    the minimum and the maximum are all NaN; otherwise all three are
    numbers, the minimum and the maximum are NDVI values of the results,
    and the mean lies between them. *)
Theorem field_summary_ordered (results : list NDVIResult) :
  (valid_values results = [] ->
     field_summary results = mkSummary None None None) /\
  (valid_values results <> [] ->
     exists m l h,
       mean_ndvi (field_summary results) = Some m /\
       lo (field_summary results) = Some l /\
       hi (field_summary results) = Some h /\
       In l (valid_values results) /\ In h (valid_values results) /\
       l <= m /\ m <= h).
Proof.
  split; [ | apply summary_ordered ].
  unfold field_summary. intros ->. reflexivity.
Qed.

(** ** The heatmap *)

Lemma list_set_length {A} (l : list A) i a : List.length (list_set l i a) = List.length l.
Proof.
  revert i. induction l as [ | x l IH ]; intro i; [ reflexivity | ].
  destruct i; cbn; [ reflexivity | now rewrite IH ].
Qed.

Lemma list_set_nth_same {A} (l : list A) i a :
  (i < List.length l)%nat -> nth_error (list_set l i a) i = Some a.
Proof.
  revert i. induction l as [ | x l IH ]; intros i H; cbn in H; [ lia | ].
  destruct i; cbn; [ reflexivity | apply IH; lia ].
Qed.

Lemma list_set_nth_other {A} (l : list A) i j a :
  i <> j -> nth_error (list_set l i a) j = nth_error l j.
Proof.
  revert i j. induction l as [ | x l IH ]; intros i j H; [ reflexivity | ].
  destruct i, j; cbn; try reflexivity; [ congruence | apply IH; congruence ].
Qed.

Lemma grid_set_shaped rows cols grid r c v :
  shaped rows cols grid -> shaped rows cols (grid_set grid r c v).
Proof.
  intros [Hlen Hlines]. unfold grid_set.
  destruct (nth_error grid (Z.to_nat r)) as [ line | ] eqn:E; [ | now split ].
  split; [ now rewrite list_set_length | ].
  rewrite Forall_forall in *. intros l Hin.
  apply In_nth_error in Hin as (j & Hj).
  destruct (Nat.eq_dec (Z.to_nat r) j) as [<- | Hne].
  - rewrite list_set_nth_same in Hj by (apply nth_error_Some; congruence).
    injection Hj as <-. rewrite list_set_length.
    apply Hlines. eapply nth_error_In. exact E.
  - rewrite list_set_nth_other in Hj by exact Hne.
    apply Hlines. eapply nth_error_In. exact Hj.
Qed.

Lemma grid_set_cell rows cols grid r c v r' c' :
  shaped rows cols grid ->
  (0 <= r < rows)%Z -> (0 <= c < cols)%Z -> (0 <= r')%Z -> (0 <= c')%Z ->
  cell_of (grid_set grid r c v) r' c'
  = if ((r =? r') && (c =? c'))%Z%bool then Some v else cell_of grid r' c'.
Proof.
  intros [Hlen Hlines] Hr Hc Hr' Hc'. unfold grid_set, cell_of.
  destruct (nth_error grid (Z.to_nat r)) as [ line | ] eqn:E.
  2: { apply nth_error_None in E. lia. }
  assert (Hline : List.length line = Z.to_nat cols).
  { rewrite Forall_forall in Hlines. apply Hlines. eapply nth_error_In. exact E. }
  destruct (Z.eqb_spec r r') as [<- | Hne].
  - rewrite list_set_nth_same by lia. rewrite E.
    destruct (Z.eqb_spec c c') as [<- | Hne]; cbn [andb].
    + apply list_set_nth_same. lia.
    + apply list_set_nth_other. lia.
  - cbn [andb]. rewrite list_set_nth_other by lia. reflexivity.
Qed.

Lemma blank_shaped rows cols :
  shaped rows cols (map (fun _ => map (fun _ => None) (py_range cols)) (py_range rows)).
Proof.
  split; [ now rewrite length_map, py_range_length | ].
  apply Forall_forall. intros line Hin. apply in_map_iff in Hin as (r & <- & _).
  now rewrite length_map, py_range_length.
Qed.

Lemma blank_cell rows cols r c :
  (0 <= r < rows)%Z -> (0 <= c < cols)%Z ->
  cell_of (map (fun _ => map (fun _ : Z => @None Q) (py_range cols)) (py_range rows)) r c
  = Some None.
Proof.
  intros Hr Hc. unfold cell_of.
  destruct (nth_error _ (Z.to_nat r)) as [ line | ] eqn:E.
  - apply nth_error_In in E. apply in_map_iff in E as (r0 & <- & _).
    destruct (nth_error _ (Z.to_nat c)) as [ v | ] eqn:E'.
    + apply nth_error_In in E'. apply in_map_iff in E' as (c0 & <- & _). reflexivity.
    + apply nth_error_None in E'. rewrite length_map, py_range_length in E'. lia.
  - apply nth_error_None in E. rewrite length_map, py_range_length in E. lia.
Qed.

Lemma fill_spec rows cols results :
  forall grid, shaped rows cols grid ->
  shaped rows cols (fill rows cols results grid) /\
  forall r c v0, (0 <= r < rows)%Z -> (0 <= c < cols)%Z ->
    cell_of grid r c = Some v0 ->
    cell_of (fill rows cols results grid) r c = Some (last_value v0 results r c).
Proof.
  induction results as [ | [[[r' c'] pid] v] results IH ]; intros grid Hs.
  - split; [ exact Hs | ]. intros r c v0 _ _ H. exact H.
  - unfold fill, last_value. cbn [fold_left].
    destruct ((0 <=? r') && (r' <? rows) && (0 <=? c') && (c' <? cols))%Z%bool eqn:G.
    + assert (Hr' : (0 <= r' < rows)%Z) by lia.
      assert (Hc' : (0 <= c' < cols)%Z) by lia.
      destruct (IH _ (grid_set_shaped rows cols grid r' c' v Hs)) as [IH1 IH2].
      split; [ exact IH1 | ].
      intros r c v0 Hr Hc H0.
      apply IH2; [ exact Hr | exact Hc | ].
      rewrite (grid_set_cell rows cols) by (assumption || lia).
      destruct ((r' =? r) && (c' =? c))%Z%bool; [ reflexivity | exact H0 ].
    + destruct (IH _ Hs) as [IH1 IH2].
      split; [ exact IH1 | ].
      intros r c v0 Hr Hc H0.
      replace ((r' =? r) && (c' =? c))%Z%bool with false; [ now apply IH2 | ].
      symmetry. apply andb_false_iff.
      destruct (Z.eqb_spec r' r), (Z.eqb_spec c' c); auto. subst. lia.
Qed.

Lemma visualize_effect
      (results : list NDVIResult) (rows cols : Z) (outfile : string) (w : World) :
  exists grid,
    visualize_ndvi results rows cols outfile w
    = (Ok tt, mkWorld (objects w) (stdout w) (files w ++ [(outfile, grid)])) /\
    List.length grid = Z.to_nat rows /\
    Forall (fun line => List.length line = Z.to_nat cols) grid /\
    forall r c, (0 <= r < rows)%Z -> (0 <= c < cols)%Z ->
      cell_of grid r c = Some (last_value None results r c).
Proof.
  destruct (fill_spec rows cols results _ (blank_shaped rows cols)) as [[H1 H2] H3].
  eexists. split; [ reflexivity | ].
  split; [ exact H1 | split; [ exact H2 | ] ].
  intros r c Hr Hc. apply H3; [ exact Hr | exact Hc | ].
  now apply blank_cell.
Qed.

(** X5.  [visualize_ndvi] with its default file name, ndvi_heatmap.png, on
    a grid with at least one row and one column returns, and does nothing
    but save one figure under this name: the objects and the output are as
    before.  The grid drawn has [rows] lines of [cols] cells; a cell holds
    the value of the last result that names it and NaN when no result
    does, and the results that lie outside the grid are skipped. *)
Theorem visualize_ndvi_grid
        (results : list NDVIResult) (rows cols : Z) (w : World) :
  (0 < rows)%Z -> (0 < cols)%Z ->
  exists grid,
    visualize_ndvi results rows cols "ndvi_heatmap.png" w
    = (Ok tt, mkWorld (objects w) (stdout w)
                      (files w ++ [("ndvi_heatmap.png"%string, grid)])) /\
    List.length grid = Z.to_nat rows /\
    Forall (fun line => List.length line = Z.to_nat cols) grid /\
    forall r c, (0 <= r < rows)%Z -> (0 <= c < cols)%Z ->
      cell_of grid r c = Some (last_value None results r c).
Proof. intros _ _. apply visualize_effect. Qed.

(** ** The bands of a generated record *)

Lemma same_close rec loaded :
  same_to_4_decimals rec loaded -> close_to_4_decimals rec loaded.
Proof.
  unfold same_to_4_decimals, close_to_4_decimals.
  intros (H1 & H2 & H3 & E1 & E2 & E3 & E4 & E5 & E6 & E7 & E8 & E9).
  rewrite E1, E2, E3, E4, E5, E6, E7, E8, E9.
  repeat split; try assumption; apply round_decimals_close.
Qed.

Lemma cell_post_envelope {RS : RandomSource} r c rec :
  cell_post r c rec -> within_envelope rec.
Proof.
  intros (_ & _ & _ & base & s & s' & Hb & _ & Hout).
  unfold within_clamp in Hb. unfold cloud_outcome in Hout.
  unfold within_envelope.
  destruct (cloud_fires s).
  - destruct Hout as (fv & fn & Hfv & Hfn & Eb).
    injection Eb as -> -> -> -> -> -> -> -> ->.
    repeat split; nra.
  - assert (E : bands_of rec = base) by exact Hout.
    rewrite <- E in Hb. cbn in Hb. repeat split; lra.
Qed.

Section Envelope.
Context {RS : RandomSource} {LM : LibM}.

Lemma generated_envelope rows cols seed records :
  generate_spectral_grid rows cols seed = Ok records ->
  Forall within_envelope records.
Proof.
  intro E. eapply Forall_impl; [ | apply (generate_records _ _ _ _ E) ].
  cbn. intros rec (r & c & _ & _ & Hp). exact (cell_post_envelope r c rec Hp).
Qed.

(** X6.  Every band of every generated record lies in the interval its
    clamp and the cloud factors leave it, whether the cloud fired or not:
    blue in [0.02, 0.2464], green in [0.12, 0.4704], red in [0.01, 1.064],
    the red edges in [0.10, 0.784] and [0.10, 0.84], the near infrared in
    [0.009, 0.95] and [0.045, 0.95], the short-wave infrared in
    [0.0945, 0.7056] and [0.0945, 0.756]. *)
Theorem generate_band_envelope (rows cols seed : Z) (records : list SpectralRecord) :
  generate_spectral_grid rows cols seed = Ok records ->
  Forall within_envelope records.
Proof. apply generated_envelope. Qed.

(** X7.  The fertility of line 55 is defined for every cell of the grid,
    lies strictly between 0 and 0.20, goes down along a column as the row
    grows and goes up along a row as the column grows. *)
Theorem fertility_gradient (rows cols r c : Z) :
  (0 <= r < rows)%Z -> (0 <= c < cols)%Z ->
  exists f,
    cell_fertility rows cols r c = Ok f /\ 0 < f /\ f < 0.20 /\
    (forall r' f', (r < r' < rows)%Z ->
                   cell_fertility rows cols r' c = Ok f' -> f' < f) /\
    (forall c' f', (c < c' < cols)%Z ->
                   cell_fertility rows cols r c' = Ok f' -> f < f').
Proof.
  intros Hr Hc.
  assert (Hrows : 0 < inject_Z rows) by (apply inject_Z_pos; lia).
  assert (Hcols : 0 < inject_Z cols) by (apply inject_Z_pos; lia).
  assert (Hr0 : 0 <= inject_Z r) by (change 0 with (inject_Z 0); rewrite <- Zle_Qle; lia).
  assert (Hc0 : 0 <= inject_Z c) by (change 0 with (inject_Z 0); rewrite <- Zle_Qle; lia).
  assert (Hr1 : inject_Z r < inject_Z rows) by (rewrite <- Zlt_Qlt; lia).
  assert (Hc1 : inject_Z c < inject_Z cols) by (rewrite <- Zlt_Qlt; lia).
  assert (Hdiv : forall a b, 0 < b -> a / b * b == a) by (intros; field; lra).
  assert (Hfert : forall r0 c0,
             cell_fertility rows cols r0 c0
             = Ok (0.15 * (1 - inject_Z r0 / inject_Z rows)
                   + 0.05 * (inject_Z c0 / inject_Z cols))).
  { intros r0 c0. unfold cell_fertility.
    rewrite !py_div_ok by lra. reflexivity. }
  eexists. split; [ apply Hfert | ].
  pose proof (Hdiv (inject_Z r) _ Hrows) as Er.
  pose proof (Hdiv (inject_Z c) _ Hcols) as Ec.
  set (x := inject_Z r / inject_Z rows) in *.
  set (y := inject_Z c / inject_Z cols) in *.
  assert (Hx : 0 <= x /\ x < 1) by (split; nra).
  assert (Hy : 0 <= y /\ y < 1) by (split; nra).
  split; [ lra | split; [ lra | split ] ].
  - intros r' f' Hr' E. rewrite Hfert in E. injection E as <-.
    assert (Hr2 : inject_Z r < inject_Z r') by (rewrite <- Zlt_Qlt; lia).
    pose proof (Hdiv (inject_Z r') _ Hrows) as Er'.
    set (x' := inject_Z r' / inject_Z rows) in *.
    assert (x < x') by nra. fold y. lra.
  - intros c' f' Hc' E. rewrite Hfert in E. injection E as <-.
    assert (Hc2 : inject_Z c < inject_Z c') by (rewrite <- Zlt_Qlt; lia).
    pose proof (Hdiv (inject_Z c') _ Hcols) as Ec'.
    set (y' := inject_Z c' / inject_Z cols) in *.
    assert (y < y') by nra. fold x. lra.
Qed.

End Envelope.

(** ** Random access to the grid *)

Lemma concat_nth_error {A} (blocks : list (list A)) n i j b x :
  Forall (fun b => List.length b = n) blocks ->
  nth_error blocks i = Some b -> nth_error b j = Some x ->
  nth_error (List.concat blocks) (i * n + j) = Some x.
Proof.
  intro H. revert i. induction H as [ | b0 blocks Hb _ IH ]; intros i Hi Hj.
  - destruct i; discriminate.
  - destruct i as [ | i ]; cbn [List.concat].
    + injection Hi as ->. cbn [Nat.mul Nat.add].
      rewrite nth_error_app1; [ exact Hj | ].
      apply nth_error_Some. congruence.
    + cbn in Hi. rewrite nth_error_app2 by (cbn; lia).
      replace (S i * n + j - List.length b0)%nat with (i * n + j)%nat by (cbn; lia).
      now apply IH.
Qed.

Lemma Forall2_nth_error {A B} (P : A -> B -> Prop) l l' i a :
  Forall2 P l l' -> nth_error l i = Some a ->
  exists b, nth_error l' i = Some b /\ P a b.
Proof.
  intro H. revert i. induction H as [ | x y l l' Hxy _ IH ]; intros i Hi.
  - destruct i; discriminate.
  - destruct i as [ | i ]; cbn in *; [ injection Hi as <-; eauto | now apply IH ].
Qed.

Lemma py_range_nth n i :
  (0 <= i < n)%Z -> nth_error (py_range n) (Z.to_nat i) = Some i.
Proof.
  intro H. unfold py_range.
  rewrite nth_error_map, nth_error_seq.
  destruct (Nat.ltb_spec (Z.to_nat i) (Z.to_nat n)); [ | lia ].
  cbn. f_equal. lia.
Qed.

Section GridAccess.
Context {RS : RandomSource} {LM : LibM}.

(** X8.  The record of the cell [(r, c)] of a generated grid is found at
    the index [r * cols + c] of the list returned; it carries [r], [c] and
    the identifier of the cell. *)
Theorem generate_cell_at (rows cols seed r c : Z) :
  (0 <= r < rows)%Z -> (0 <= c < cols)%Z ->
  exists records rec,
    generate_spectral_grid rows cols seed = Ok records /\
    nth_error records (Z.to_nat (r * cols + c)) = Some rec /\
    row rec = r /\ col rec = c /\ plot_id rec = plot_id_of r c.
Proof.
  intros Hr Hc.
  destruct (generate_cells rows cols seed ltac:(lia) ltac:(lia)) as (blocks & E & HF).
  destruct (Forall2_nth_error _ _ _ _ _ HF (py_range_nth rows r Hr)) as (block & Hb & HFb).
  destruct (Forall2_nth_error _ _ _ _ _ HFb (py_range_nth cols c Hc))
    as (rec & Hrec & Hrow & Hcol & Hid & _).
  exists (List.concat blocks), rec. split; [ exact E | ].
  split; [ | auto ].
  replace (Z.to_nat (r * cols + c)) with (Z.to_nat r * Z.to_nat cols + Z.to_nat c)%nat by nia.
  apply (concat_nth_error blocks (Z.to_nat cols) _ _ block); try assumption.
  clear - HF. induction HF as [ | r0 b rs bs Hb0 _ IH ]; constructor; [ | exact IH ].
  apply Forall2_length in Hb0. now rewrite <- Hb0, py_range_length.
Qed.

(** ** The codec *)

(** X9.  Records that the codec can store (an identifier of printable
    characters with no comma and no double quote, of at most 131072
    characters; a row and a column of at most 4300 digits) come back from
    [load_records_csv] after [save_records_csv] in the same number and
    order, with the same identifier, row and column and with every band
    rounded to four decimals, ties to even. *)
Theorem load_save_unquoted (records : list SpectralRecord) :
  Forall storable records ->
  exists loaded,
    load_records_csv (save_records_csv records) = Ok loaded /\
    Forall2 same_to_4_decimals records loaded.
Proof.
  intro H. apply load_save_plain.
  eapply Forall_impl; [ | exact H ]. intros rec Hrec. exact (proj1 Hrec).
Qed.

(** X10.  A generated grid that is saved and loaded comes back record by
    record with the same identifier, row and column, every band within
    0.00005 of the band generated. *)
Theorem generate_save_load (rows cols seed : Z) (records : list SpectralRecord) :
  generate_spectral_grid rows cols seed = Ok records ->
  exists loaded,
    load_records_csv (save_records_csv records) = Ok loaded /\
    Forall2 close_to_4_decimals records loaded.
Proof.
  intro E. destruct (load_save_generated _ _ _ _ E) as (loaded & El & HF).
  exists loaded. split; [ exact El | ].
  eapply Forall2_impl; [ | exact HF ]. apply same_close.
Qed.

End GridAccess.

(** ** The header of the file *)








(** ** Saving what was loaded *)

Lemma Qltb_compat x y z : x == y -> Qltb x z = Qltb y z.
Proof.
  intro H. destruct (Qltb x z) eqn:E1, (Qltb y z) eqn:E2; try reflexivity;
    [ apply Qltb_lt in E1; apply Qltb_ge in E2 | apply Qltb_ge in E1; apply Qltb_lt in E2 ];
    lra.
Qed.

Lemma round_half_even_compat x y : x == y -> round_half_even x = round_half_even y.
Proof.
  intro H. unfold round_half_even.
  rewrite (Qfloor_comp _ _ H).
  assert (E : x - inject_Z (Qfloor y) == y - inject_Z (Qfloor y)) by lra.
  now rewrite (Qcompare_comp _ _ E _ _ (Qeq_refl (1 # 2))).
Qed.

Lemma round_half_even_Z n : round_half_even (inject_Z n) = n.
Proof.
  unfold round_half_even. rewrite Qfloor_Z.
  assert (E : inject_Z n - inject_Z n == 0) by lra.
  now rewrite (Qcompare_comp _ _ E _ _ (Qeq_refl (1 # 2))).
Qed.

Lemma format_fixed_compat prec x y : x == y -> format_fixed prec x = format_fixed prec y.
Proof.
  intro H. unfold format_fixed.
  rewrite (Qltb_compat x y 0 H).
  assert (E : Qabs x * inject_Z (10 ^ Z.of_nat prec) == Qabs y * inject_Z (10 ^ Z.of_nat prec))
    by now rewrite H.
  now rewrite (round_half_even_compat _ _ E).
Qed.

(** A number already rounded is written as the number it was rounded from. *)
Lemma format_fixed_rounded x :
  0 <= x -> format_fixed 4 (round_decimals 4 x) = format_fixed 4 x.
Proof.
  intro Hx. unfold round_decimals.
  assert (Hneg : Qltb x 0 = false) by (apply Qltb_ge; lra).
  rewrite Hneg. change (10 ^ Z.of_nat 4)%Z with 10000%Z.
  set (n := round_half_even (Qabs x * inject_Z 10000)).
  assert (Hn : (0 <= n)%Z).
  { apply round_half_even_nonneg. pose proof (Qabs_nonneg x).
    change (inject_Z 10000) with 10000. nra. }
  assert (Hq : 0 <= inject_Z n / inject_Z 10000).
  { rewrite Zle_Qle in Hn. change (inject_Z 0) with 0 in Hn.
    change (inject_Z 10000) with 10000. apply Qle_shift_div_l; lra. }
  unfold format_fixed. change (10 ^ Z.of_nat 4)%Z with 10000%Z.
  fold n. rewrite Hneg.
  assert (Hneg' : Qltb (inject_Z n / inject_Z 10000) 0 = false) by (apply Qltb_ge; lra).
  rewrite Hneg'.
  assert (E : Qabs (inject_Z n / inject_Z 10000) * inject_Z 10000 == inject_Z n).
  { pose proof (Qabs_pos _ Hq) as Ha. change (inject_Z 10000) with 10000 in *.
    assert (E' : inject_Z n / 10000 * 10000 == inject_Z n) by (field; lra).
    lra. }
  now rewrite (round_half_even_compat _ _ E), round_half_even_Z.
Qed.

Lemma record_row_loaded rec loaded :
  nonnegative rec -> same_to_4_decimals rec loaded ->
  record_row loaded = record_row rec.
Proof.
  intros (H1 & H2 & H3 & H4 & H5 & H6 & H7 & H8 & H9)
         (Ep & Er & Ec & E1 & E2 & E3 & E4 & E5 & E6 & E7 & E8 & E9).
  unfold record_row. rewrite Ep, Er, Ec.
  rewrite (format_fixed_compat 4 _ _ E1), (format_fixed_rounded _ H1).
  rewrite (format_fixed_compat 4 _ _ E2), (format_fixed_rounded _ H2).
  rewrite (format_fixed_compat 4 _ _ E3), (format_fixed_rounded _ H3).
  rewrite (format_fixed_compat 4 _ _ E4), (format_fixed_rounded _ H4).
  rewrite (format_fixed_compat 4 _ _ E5), (format_fixed_rounded _ H5).
  rewrite (format_fixed_compat 4 _ _ E6), (format_fixed_rounded _ H6).
  rewrite (format_fixed_compat 4 _ _ E7), (format_fixed_rounded _ H7).
  rewrite (format_fixed_compat 4 _ _ E8), (format_fixed_rounded _ H8).
  rewrite (format_fixed_compat 4 _ _ E9), (format_fixed_rounded _ H9).
  reflexivity.
Qed.

Lemma save_loaded records loaded :
  Forall nonnegative records -> Forall2 same_to_4_decimals records loaded ->
  save_records_csv loaded = save_records_csv records.
Proof.
  intros Hn HF. unfold save_records_csv. do 2 f_equal.
  induction HF as [ | rec l records loaded Hs _ IH ]; [ reflexivity | ].
  cbn [map]. rewrite (record_row_loaded rec l (Forall_inv Hn) Hs).
  f_equal. exact (IH (Forall_inv_tail Hn)).
Qed.

(** X12.  Saving what was loaded from a saved file writes the same file
    again, and loading that gives the same records: for records that the
    codec can store (as in X9) and bands that are not negative, the
    rounding to four decimals happens once.  The records loaded can be
    stored as well. *)
Theorem save_load_save (records : list SpectralRecord) :
  Forall storable records ->
  Forall nonnegative records ->
  exists loaded,
    load_records_csv (save_records_csv records) = Ok loaded /\
    Forall storable loaded /\
    save_records_csv loaded = save_records_csv records /\
    load_records_csv (save_records_csv loaded) = Ok loaded.
Proof.
  intros Hs Hn.
  assert (Hp : Forall (fun rec => plain (plot_id rec)) records).
  { eapply Forall_impl; [ | exact Hs ]. intros rec Hrec. exact (proj1 Hrec). }
  destruct (load_save_plain records Hp) as (loaded & El & HF).
  pose proof (save_loaded _ _ Hn HF) as Es.
  exists loaded. rewrite Es. split; [ exact El | split; [ | auto ] ].
  clear - Hs HF. induction HF as [ | rec l records loaded Hl _ IH ]; constructor.
  - destruct Hl as (Ep & Er & Ec & _). unfold storable.
    rewrite Ep, Er, Ec. exact (Forall_inv Hs).
  - exact (IH (Forall_inv_tail Hs)).
Qed.

(** ** Output only *)

Lemma prints_only_pret {A} (a : A) : prints_only (pret a).
Proof. intro w. exists []. destruct w. cbn. now rewrite List.app_nil_r. Qed.

Lemma prints_only_pbind {A B} (m : Prog A) (k : A -> Prog B) :
  prints_only m -> (forall a, prints_only (k a)) -> prints_only (pbind m k).
Proof.
  intros Hm Hk w. unfold pbind. destruct (Hm w) as (out & E).
  destruct (m w) as [[a | e] w']; cbn in E; subst w'.
  - destruct (Hk a (mkWorld (objects w) (stdout w ++ out) (files w))) as (out' & E').
    exists (out ++ out'). rewrite E'. cbn. now rewrite List.app_assoc.
  - now exists out.
Qed.

Lemma prints_only_deref l : prints_only (deref l).
Proof.
  intro w. exists []. unfold deref.
  destruct (nth_error (objects w) l); destruct w; cbn; now rewrite List.app_nil_r.
Qed.

Lemma prints_only_print line : prints_only (print line).
Proof. intro w. now exists [line]. Qed.

Lemma prints_only_pwhen b m : prints_only m -> prints_only (pwhen b m).
Proof. intro H. destruct b; [ exact H | apply prints_only_pret ]. Qed.

Lemma prints_only_pfor_each {A S} (xs : list A) (body : A -> S -> Prog S) acc :
  (forall x a, prints_only (body x a)) -> prints_only (pfor_each xs body acc).
Proof.
  intro Hbody. revert acc. induction xs as [ | x xs IH ]; intro acc; cbn.
  - apply prints_only_pret.
  - apply prints_only_pbind; [ apply Hbody | exact IH ].
Qed.

Create HintDb prints.
#[local] Hint Resolve prints_only_pret prints_only_deref prints_only_print : prints.
#[local] Hint Extern 2 (prints_only (pbind _ _)) =>
  apply prints_only_pbind; [ | intro ] : prints.
#[local] Hint Extern 2 (prints_only (pfor_each _ _ _)) =>
  apply prints_only_pfor_each; intros : prints.
#[local] Hint Extern 2 (prints_only (pwhen _ _)) => apply prints_only_pwhen : prints.
#[local] Hint Extern 3 (prints_only (match ?x with _ => _ end)) => destruct x : prints.

Lemma prints_only_run_example records preview_count :
  prints_only (run_example records preview_count).
Proof. unfold run_example. auto 20 with prints. Qed.

Lemma run_example_effect records recs preview_count w :
  holds w records recs ->
  exists out,
    run_example records preview_count w
    = (Ok (map ndvi_result recs),
       mkWorld (objects w) (stdout w ++ out) (files w)).
Proof.
  intro H. destruct (prints_only_run_example records preview_count w) as (out & E).
  pose proof (run_example_results records recs preview_count w H) as Er.
  exists out. destruct (run_example records preview_count w) as [r w'].
  cbn in E, Er. now subst.
Qed.

(** ** The largest attribute *)

Lemma values_loop (f : SpectralRecord -> Z) records recs acc w :
  holds w records recs ->
  pfor_each records
    (fun l values => pbind (deref l) (fun rec => pret (values ++ [f rec])))
    acc w
  = (Ok (acc ++ map f recs), w).
Proof.
  intro H. revert acc. induction H as [ | l rec ls recs Hl _ IH ]; intro acc; cbn.
  - now rewrite List.app_nil_r.
  - unfold pbind at 1, pbind at 1, deref. rewrite Hl. unfold pret at 1.
    rewrite IH. now rewrite <- List.app_assoc.
Qed.

Lemma max_attr_holds f records recs w :
  holds w records recs ->
  max_attr f records w = (py_max_int (map f recs), w).
Proof.
  intro H. unfold max_attr, pbind. now rewrite (values_loop f _ _ _ _ H).
Qed.

Lemma fold_max_spec rest x :
  let m := fold_left (fun m v => if (m <? v)%Z then v else m) rest x in
  In m (x :: rest) /\ Forall (fun v => (v <= m)%Z) (x :: rest).
Proof.
  revert x. induction rest as [ | y rest IH ]; intro x; cbn [fold_left].
  - split; [ now left | constructor; [ lia | constructor ] ].
  - destruct (IH (if (x <? y)%Z then y else x)) as [Hin Hall]. cbv zeta.
    split.
    + destruct Hin as [Hin | Hin]; [ | right; now right ].
      rewrite <- Hin. destruct (x <? y)%Z; cbn; auto.
    + inversion Hall as [ | ? ? H1 H2 ]; subst.
      constructor; [ | constructor; [ | exact H2 ] ];
        destruct (Z.ltb_spec x y); lia.
Qed.

Lemma py_max_int_is xs m :
  In m xs -> Forall (fun v => (v <= m)%Z) xs -> py_max_int xs = Ok m.
Proof.
  intros Hin Hall. destruct xs as [ | x rest ]; [ contradiction | ].
  cbn [py_max_int]. f_equal.
  destruct (fold_max_spec rest x) as [Hin' Hall']. cbv zeta in *.
  rewrite Forall_forall in Hall, Hall'.
  specialize (Hall _ Hin'). specialize (Hall' _ Hin). lia.
Qed.


(** ** New objects *)

Lemma holds_new_objects w recs :
  holds (mkWorld (objects w ++ recs) (stdout w) (files w))
        (seq (List.length (objects w)) (List.length recs)) recs.
Proof.
  unfold holds. cbn [objects]. generalize (objects w) as objs.
  induction recs as [ | rec recs IH ]; intro objs; cbn [seq List.length]; constructor.
  - rewrite nth_error_app2 by lia. now rewrite Nat.sub_diag.
  - specialize (IH (objs ++ [rec])).
    rewrite <- List.app_assoc, length_app in IH. cbn in IH.
    now rewrite Nat.add_1_r in IH.
Qed.

(** ** [main] *)

Lemma analyse_ok w d ls recs mr mc :
  holds w ls recs ->
  py_max_int (map row recs) = Ok mr -> py_max_int (map col recs) = Ok mc ->
  exists out grid,
    analyse ls (mkSession w d)
    = (inl tt,
       mkSession (mkWorld (objects w) (stdout w ++ out)
                          (files w ++ [("ndvi_heatmap.png"%string, grid)])) d) /\
    List.length grid = Z.to_nat (mr + 1) /\
    Forall (fun line => List.length line = Z.to_nat (mc + 1)) grid /\
    forall r c, (0 <= r < mr + 1)%Z -> (0 <= c < mc + 1)%Z ->
      cell_of grid r c = Some (last_value None (map ndvi_result recs) r c).
Proof.
  intros H Hr Hc.
  destruct (run_example_effect ls recs 80 w H) as (out & Erun).
  destruct (visualize_effect (map ndvi_result recs) (mr + 1) (mc + 1)
              "ndvi_heatmap.png" (mkWorld (objects w) (stdout w ++ out) (files w)))
    as (grid & Evis & Hlen & Hlines & Hcells).
  exists out, grid. split; [ | auto ].
  unfold analyse, mbind, in_world. cbn [world dataset].
  rewrite (max_attr_holds row _ _ _ H), Hr. cbn [world dataset].
  rewrite (max_attr_holds col _ _ _ H), Hc. cbn [world dataset].
  rewrite Erun. cbn [world dataset]. rewrite Evis. reflexivity.
Qed.

Lemma load_dataset_ok w content loaded :
  load_records_csv content = Ok loaded ->
  load_dataset (mkSession w (Some content))
  = (inl (seq (List.length (objects w)) (List.length loaded)),
     mkSession (mkWorld (objects w ++ loaded) (stdout w) (files w)) (Some content)).
Proof.
  intro E. unfold load_dataset, mbind, read_dataset, of_result, in_world, new_objects.
  cbn [dataset world]. rewrite E. reflexivity.
Qed.

Lemma load_dataset_raise w content e :
  load_records_csv content = Raise e ->
  load_dataset (mkSession w (Some content))
  = (inr (PyExn e), mkSession w (Some content)).
Proof.
  intro E. unfold load_dataset, mbind, read_dataset, of_result.
  cbn [dataset world]. rewrite E. reflexivity.
Qed.

Lemma world_eta w : mkWorld (objects w) (stdout w) (files w) = w.
Proof. now destruct w. Qed.


(** In the model an empty dataset and an exception other than [KeyError]
    stop [main] before it prints anything. *)
Lemma main_load_fails {RS : RandomSource} {LM : LibM} (w : World) (content : string) :
  (load_records_csv content = Ok [] ->
   main (mkSession w (Some content))
   = (inr (PyExn ValueError), mkSession w (Some content))) /\
  (forall e, load_records_csv content = Raise e -> e <> KeyError ->
   main (mkSession w (Some content))
   = (inr (PyExn e), mkSession w (Some content))).
Proof.
  split.
  - intro E.
    unfold main. unfold mbind at 1, dataset_exists. cbn [dataset].
    unfold mbind at 1, mret. unfold mbind at 1, load_or_regenerate.
    rewrite (load_dataset_ok _ _ _ E). cbn [List.length seq].
    unfold mbind at 1, in_world, max_attr. cbn.
    now rewrite List.app_nil_r, world_eta.
  - intros e E Hne.
    unfold main. unfold mbind at 1, dataset_exists. cbn [dataset].
    unfold mbind at 1, mret. unfold mbind at 1, load_or_regenerate.
    rewrite (load_dataset_raise _ _ _ E).
    destruct e; try reflexivity. congruence.
Qed.

(** A file of unquoted fields is read line by line, each line cut at its
    commas. *)
Lemma load_plain_rows fieldnames data :
  plain_row fieldnames -> Forall plain_row data ->
  load_records_csv (crlf_text (map (join ",") (fieldnames :: data)))
  = load_rows (map (row_dict fieldnames) data).
Proof.
  intros Hf Hd.
  assert (Hrows : Forall plain_row (fieldnames :: data)) by now constructor.
  unfold load_records_csv. rewrite file_lines_crlf_text.
  - rewrite map_map.
    change (fun x => (join "," x ++ String LF EmptyString)%string) with row_line.
    now rewrite (dict_reader_plain _ _ Hrows).
  - apply Forall_map. eapply Forall_impl; [ | exact Hrows ].
    intros r [_ Hr]. now apply no_newline_join.
Qed.

(** [int] of a string that starts with a letter. *)
Lemma parse_int_letter ch s :
  is_letter ch = true -> parse_int (String ch s) = Raise ValueError.
Proof.
  intro H.
  destruct ch as [[] [] [] [] [] [] [] []]; cbn in H; try discriminate H; reflexivity.
Qed.

(** X14.  [main] does not recover from every file it cannot use.  On a
    dataset that is a header line alone it raises [ValueError], from [max]
    of an empty sequence.  On a dataset with the twelve columns whose
    first record has a row number that starts with a letter it raises
    [ValueError] as well, from [int]: only a [KeyError] makes [main]
    regenerate the file.  In both cases nothing is printed, saved or
    regenerated, and the file is left as it is.  The fields are unquoted,
    ordinary text. *)
Theorem main_failures {RS : RandomSource} {LM : LibM} (w : World) :
  (forall fieldnames : list string,
     plain_row fieldnames -> Forall ordinary fieldnames ->
     let content := crlf_text [ join "," fieldnames ] in
     main (mkSession w (Some content))
     = (inr (PyExn ValueError), mkSession w (Some content))) /\
  (forall (pid : string) (ch : ascii) (s : string) (fields : list string)
          (rest : list (list string)),
     is_letter ch = true -> List.length fields = 10%nat ->
     let bad := pid :: String ch s :: fields in
     Forall plain_row (bad :: rest) -> Forall (Forall ordinary) (bad :: rest) ->
     let content := crlf_text (map (join ",") (header :: bad :: rest)) in
     main (mkSession w (Some content))
     = (inr (PyExn ValueError), mkSession w (Some content))).
Proof.
  split.
  - intros fieldnames Hf _ content.
    apply (proj1 (main_load_fails w content)).
    exact (load_plain_rows fieldnames [] Hf (Forall_nil _)).
  - intros pid ch s fields rest Hch Hlen bad Hrows _ content.
    apply (proj2 (main_load_fails w content)); [ | discriminate ].
    unfold content. rewrite (load_plain_rows header (bad :: rest) header_plain Hrows).
    unfold bad.
    do 10 (destruct fields as [ | ? fields ]; [ discriminate Hlen | ]).
    destruct fields; [ | discriminate Hlen ].
    cbn [map load_rows].
    rewrite load_record_of_row, (parse_int_letter ch s Hch). reflexivity.
Qed.

Section Regenerate.
Context {RS : RandomSource} {LM : LibM}.

Lemma regenerate_ok :
  exists recs,
    generate_spectral_grid 140 140 2027 = Ok recs /\
    map position recs = row_major 140 140 /\
    forall w d,
      regenerate (mkSession w d)
      = (inl tt,
         mkSession (mkWorld (objects w) (stdout w ++ [generated_line]) (files w))
                   (Some (save_records_csv recs))).
Proof.
  destruct (generate_cells 140 140 2027 ltac:(lia) ltac:(lia)) as (blocks & E & HF).
  exists (List.concat blocks). split; [ exact E | ].
  split; [ exact (blocks_positions _ _ _ HF) | ].
  intros w d. unfold regenerate, mbind, of_result. rewrite E. reflexivity.
Qed.

(** After a call of [regenerate] the dataset loads, and [main] goes on with
    the records loaded. *)
Lemma main_regenerated w d :
  (d = None \/ exists content, d = Some content /\ load_records_csv content = Raise KeyError) ->
  exists recs loaded w1,
    generate_spectral_grid 140 140 2027 = Ok recs /\
    map position recs = row_major 140 140 /\
    load_records_csv (save_records_csv recs) = Ok loaded /\
    Forall2 same_to_4_decimals recs loaded /\
    w1 = mkWorld (objects w ++ loaded) (stdout w ++ [generated_line]) (files w) /\
    main (mkSession w d)
    = analyse (seq (List.length (objects w)) (List.length loaded))
              (mkSession w1 (Some (save_records_csv recs))).
Proof.
  intro Hd. destruct regenerate_ok as (recs & E & Hpos & Hregen).
  destruct (load_save_generated _ _ _ _ E) as (loaded & El & HF).
  exists recs, loaded, (mkWorld (objects w ++ loaded) (stdout w ++ [generated_line]) (files w)).
  repeat (split; [ assumption || reflexivity | ]).
  change main with
    (present <== dataset_exists ;;
     _ <== (if present then mret tt else regenerate) ;;
     records <== load_or_regenerate ;; analyse records).
  unfold mbind at 1, dataset_exists. cbn [dataset].
  destruct Hd as [-> | (content & -> & Ek)].
  - unfold mbind at 1. rewrite Hregen.
    unfold mbind at 1, load_or_regenerate.
    rewrite (load_dataset_ok _ _ _ El). reflexivity.
  - unfold mbind at 1, mret. unfold mbind at 1, load_or_regenerate.
    rewrite (load_dataset_raise _ _ _ Ek).
    unfold mbind at 1. rewrite Hregen.
    rewrite (load_dataset_ok _ _ _ El). reflexivity.
Qed.


End Regenerate.

(** ** A run with no dataset *)

Lemma round_decimals_positive x : 1 # 10000 <= x -> 0 < round_decimals 4 x.
Proof.
  intro H. unfold round_decimals. change (10 ^ Z.of_nat 4)%Z with 10000%Z.
  change (inject_Z 10000) with 10000.
  assert (Hneg : Qltb x 0 = false) by (apply Qltb_ge; lra).
  rewrite Hneg.
  pose proof (Qabs_pos x ltac:(lra)) as Habs.
  assert (Hf : (1 <= Qfloor (Qabs x * 10000))%Z).
  { change 1%Z with (Qfloor 1). apply Qfloor_resp_le. lra. }
  assert (Hr : (1 <= round_half_even (Qabs x * 10000))%Z).
  { unfold round_half_even.
    destruct (Qcompare _ _); [ destruct (Z.even _) | | ]; lia. }
  rewrite Zle_Qle in Hr. change (inject_Z 1) with 1 in Hr.
  apply Qlt_shift_div_l; lra.
Qed.

Lemma loaded_ndvi rec loaded :
  within_envelope rec -> same_to_4_decimals rec loaded ->
  proper_ndvi (ndvi (red_665 loaded) (nir_842 loaded)).
Proof.
  intros (_ & _ & [Hred _] & _ & _ & [Hnir _] & _)
         (_ & _ & _ & _ & _ & Er & _ & _ & En & _).
  apply ndvi_positive.
  - rewrite Er. apply round_decimals_positive. lra.
  - rewrite En. apply round_decimals_positive. lra.
Qed.

Lemma loaded_positions recs loaded :
  Forall2 same_to_4_decimals recs loaded ->
  map position loaded = map position recs.
Proof.
  induction 1 as [ | rec l recs loaded (_ & Hr & Hc & _) _ IH ]; cbn; [ reflexivity | ].
  rewrite IH. unfold position. now rewrite Hr, Hc.
Qed.

Lemma loaded_results recs loaded :
  Forall within_envelope recs -> Forall2 same_to_4_decimals recs loaded ->
  Forall (fun res : NDVIResult => proper_ndvi (snd res)) (map ndvi_result loaded).
Proof.
  intros He HF. induction HF as [ | rec l recs loaded Hs _ IH ]; cbn; constructor.
  - cbn. exact (loaded_ndvi rec l (Forall_inv He) Hs).
  - exact (IH (Forall_inv_tail He)).
Qed.

Lemma grid_maxima recs rows cols :
  (0 < rows)%Z -> (0 < cols)%Z ->
  map position recs = row_major rows cols ->
  py_max_int (map row recs) = Ok (rows - 1)%Z /\
  py_max_int (map col recs) = Ok (cols - 1)%Z.
Proof.
  intros Hrows Hcols Hpos.
  assert (Hin : forall rec, In rec recs ->
                 (0 <= row rec < rows)%Z /\ (0 <= col rec < cols)%Z).
  { intros rec Hrec. apply row_major_In. rewrite <- Hpos.
    change (row rec, col rec) with (position rec). now apply in_map. }
  assert (Hcorner : In (rows - 1, cols - 1)%Z (map position recs)).
  { rewrite Hpos. apply row_major_In. lia. }
  apply in_map_iff in Hcorner as (rec & Ep & Hrec).
  injection Ep as Er Ec.
  split; apply py_max_int_is.
  - rewrite <- Er. now apply in_map.
  - apply Forall_forall. intros v Hv. apply in_map_iff in Hv as (x & <- & Hx).
    apply Hin in Hx. lia.
  - rewrite <- Ec. now apply in_map.
  - apply Forall_forall. intros v Hv. apply in_map_iff in Hv as (x & <- & Hx).
    apply Hin in Hx. lia.
Qed.

Lemma last_value_proper results r c init :
  Forall (fun res : NDVIResult => proper_ndvi (snd res)) results ->
  proper_ndvi init \/ In (r, c) (map (fun res : NDVIResult => (fst (fst (fst res)), snd (fst (fst res)))) results) ->
  proper_ndvi (last_value init results r c).
Proof.
  intro H. revert init. induction H as [ | [[[r' c'] pid] v] results Hv _ IH ]; intros init Hi.
  - destruct Hi as [Hi | []]. exact Hi.
  - unfold last_value. cbn [fold_left]. apply IH.
    destruct ((r' =? r) && (c' =? c))%Z%bool eqn:G.
    + left. exact Hv.
    + destruct Hi as [Hi | [Hi | Hi]]; [ now left | | now right ].
      cbn in Hi. injection Hi as -> ->.
      rewrite !Z.eqb_refl in G. discriminate.
Qed.

Section FreshStart.
Context {RS : RandomSource} {LM : LibM}.

(** X16.  [main] with no dataset returns.  It generates the grid of 140 by
    140 cells with the seed 2027, saves it, prints the line that says so
    before any other, loads the file (the records loaded are the new
    objects, each band within 0.00005 of the band generated) and saves one
    figure of 140 lines of 140 cells, every cell a number strictly between
    -1 and 1: no cell of the heatmap is NaN. *)
Theorem main_fresh_start (w : World) :
  exists recs loaded out grid,
    generate_spectral_grid 140 140 2027 = Ok recs /\
    Forall2 close_to_4_decimals recs loaded /\
    main (mkSession w None)
    = (inl tt,
       mkSession (mkWorld (objects w ++ loaded)
                          (stdout w ++ generated_line :: out)
                          (files w ++ [("ndvi_heatmap.png"%string, grid)]))
                 (Some (save_records_csv recs))) /\
    List.length grid = 140%nat /\
    Forall (fun line => List.length line = 140%nat) grid /\
    forall r c, (0 <= r < 140)%Z -> (0 <= c < 140)%Z ->
      exists v, cell_of grid r c = Some (Some v) /\ -1 < v /\ v < 1.
Proof.
  destruct (main_regenerated w None) as (recs & loaded & w1 & E & Hpos & El & HF & -> & Em);
    [ now left | ].
  pose proof (generated_envelope _ _ _ _ E) as Henv.
  pose proof (loaded_positions _ _ HF) as Hlp. rewrite Hpos in Hlp.
  destruct (grid_maxima loaded 140 140 ltac:(lia) ltac:(lia) Hlp) as [Hmr Hmc].
  destruct (analyse_ok (mkWorld (objects w ++ loaded) (stdout w ++ [generated_line]) (files w))
              (Some (save_records_csv recs)) _ _ _ _
              (holds_new_objects w loaded) Hmr Hmc)
    as (out & grid & Ea & Hlen & Hlines & Hcells).
  exists recs, loaded, out, grid.
  split; [ exact E | ].
  split; [ eapply Forall2_impl; [ apply same_close | exact HF ] | ].
  split.
  - rewrite Em, Ea. cbn [objects stdout files].
    now rewrite <- List.app_assoc.
  - split; [ exact Hlen | split; [ exact Hlines | ] ].
    intros r c Hr Hc. rewrite (Hcells r c) by lia.
    destruct (last_value_proper (map ndvi_result loaded) r c None
                (loaded_results _ _ Henv HF)) as (v & Ev & Hv).
    + right. rewrite map_map.
      change (fun x : SpectralRecord => (fst (fst (fst (ndvi_result x))), snd (fst (fst (ndvi_result x)))))
        with position.
      rewrite Hlp. apply row_major_In. lia.
    + exists v. rewrite Ev. auto.
Qed.

End FreshStart.

(** ** The summary of a generated grid *)

Lemma valid_values_all_defined (results : list NDVIResult) :
  Forall (fun res : NDVIResult => proper_ndvi (snd res)) results ->
  List.length (valid_values results) = List.length results /\
  Forall (fun v => -1 < v /\ v < 1) (valid_values results).
Proof.
  induction 1 as [ | [[[r c] pid] v] results (x & Ex & Hx) _ [IH1 IH2] ].
  - split; [ reflexivity | constructor ].
  - cbn in Ex. subst v. cbn [valid_values List.length]. split.
    + now rewrite IH1.
    + now constructor.
Qed.

Section GeneratedSummary.
Context {RS : RandomSource} {LM : LibM}.

Lemma generated_results rows cols seed records :
  generate_spectral_grid rows cols seed = Ok records ->
  Forall (fun res : NDVIResult => proper_ndvi (snd res)) (map ndvi_result records).
Proof.
  intro E. apply Forall_map.
  eapply Forall_impl; [ | apply (generate_records _ _ _ _ E) ].
  cbn. intros rec (r & c & _ & _ & Hp).
  destruct (cell_post_envelope r c rec Hp) as (_ & _ & [Hred _] & _ & _ & [Hnir _] & _).
  apply ndvi_positive; lra.
Qed.

(** X17.  For a generated grid with at least one row and one column every
    NDVI is finite, so the summary counts all [rows * cols] cells, and its
    minimum, mean and maximum are numbers with
    -1 < min <= mean <= max < 1. *)
Theorem generate_summary_defined (rows cols seed : Z) :
  (0 < rows)%Z -> (0 < cols)%Z ->
  exists records m l h,
    generate_spectral_grid rows cols seed = Ok records /\
    List.length (valid_values (map ndvi_result records)) = Z.to_nat (rows * cols) /\
    mean_ndvi (field_summary (map ndvi_result records)) = Some m /\
    lo (field_summary (map ndvi_result records)) = Some l /\
    hi (field_summary (map ndvi_result records)) = Some h /\
    -1 < l /\ l <= m /\ m <= h /\ h < 1.
Proof.
  intros Hrows Hcols.
  destruct (generate_cells rows cols seed Hrows Hcols) as (blocks & E & HF).
  pose proof (generated_results _ _ _ _ E) as Hres.
  destruct (valid_values_all_defined _ Hres) as [Hlen Hall].
  assert (Hn : List.length (List.concat blocks) = Z.to_nat (rows * cols)).
  { rewrite <- (length_map position), (blocks_positions _ _ _ HF).
    rewrite product_length, !py_range_length. lia. }
  rewrite length_map, Hn in Hlen.
  assert (Hne : valid_values (map ndvi_result (List.concat blocks)) <> []).
  { intro E0. rewrite E0 in Hlen. cbn in Hlen. nia. }
  destruct (summary_ordered (map ndvi_result (List.concat blocks)) Hne)
    as (m & l & h & Em & El & Eh & Hl & Hh & Hlm & Hmh).
  exists (List.concat blocks), m, l, h.
  rewrite Forall_forall in Hall.
  repeat split; try assumption.
  - apply (Hall l Hl).
  - apply (Hall h Hh).
Qed.

End GeneratedSummary.

(** ** The plots reported as stressed *)

(** X18.  The plots that [run_example] reports as stressed (line 47) are
    the identifiers of the results whose NDVI is a number below 0.30: a
    result whose NDVI is NaN is never reported, and the identifiers come
    in the order of the results. *)
Theorem stressed_plots_spec (results more : list NDVIResult) (pid : string) :
  (In pid (stressed_plots results) <->
   exists r c v, In (r, c, pid, Some v) results /\ v < 0.30) /\
  stressed_plots (results ++ more) = stressed_plots results ++ stressed_plots more.
Proof.
  split; [ | apply flat_map_app ].
  unfold stressed_plots. rewrite in_flat_map. split.
  - intros ([[[r c] p] [ v | ]] & Hin & Hp); [ | contradiction ].
    destruct (Qltb v 0.30) eqn:E; [ | contradiction ].
    apply Qltb_lt in E. destruct Hp as [<- | []].
    exists r, c, v. now split.
  - intros (r & c & v & Hin & Hv).
    exists (r, c, pid, Some v). split; [ exact Hin | ].
    apply Qltb_lt in Hv. rewrite Hv. now left.
Qed.

(** ** The layout of the file *)


(** ** The further properties at concrete inputs *)

Module Cases.

Import Toy.

Lemma ndvi_range_run :
  0 <= 0.2 /\ 0 <= 0.6 /\ ~ 0.6 + 0.2 == 0 /\
  exists v,
    ndvi 0.2 0.6 = Some v /\ -1 <= v /\ v <= 1 /\
    (0 < v <-> 0.2 < 0.6) /\ (v == 0 <-> 0.2 == 0.6).
Proof.
  assert (H : ~ 0.6 + 0.2 == 0) by (intro H; lra).
  split; [ lra | split; [ lra | split; [ exact H | ] ] ].
  apply (ndvi_range 0.2 0.6); [ lra | lra | exact H ].
Defined.

(** With the seed 36 the cloud flag of the first cell fires. *)
Lemma generate_band_envelope_run :
  exists records,
    generate_spectral_grid 1 2 36 = Ok records /\
    Forall within_envelope records.
Proof.
  eexists. split; [ vm_compute; reflexivity | ].
  apply (generate_band_envelope 1 2 36).
  vm_compute; reflexivity.
Defined.

Lemma fertility_gradient_run :
  (0 <= 1 < 4)%Z /\ (0 <= 2 < 4)%Z /\
  exists f,
    cell_fertility 4 4 1 2 = Ok f /\ 0 < f /\ f < 0.20 /\
    (forall r' f', (1 < r' < 4)%Z -> cell_fertility 4 4 r' 2 = Ok f' -> f' < f) /\
    (forall c' f', (2 < c' < 4)%Z -> cell_fertility 4 4 1 c' = Ok f' -> f < f').
Proof.
  split; [ lia | split; [ lia | ] ].
  apply (fertility_gradient 4 4 1 2); lia.
Defined.

Lemma generate_cell_at_run :
  (0 <= 1 < 2)%Z /\ (0 <= 2 < 3)%Z /\
  exists records rec,
    generate_spectral_grid 2 3 42 = Ok records /\
    nth_error records (Z.to_nat (1 * 3 + 2)) = Some rec /\
    row rec = 1%Z /\ col rec = 2%Z /\ plot_id rec = plot_id_of 1 2.
Proof.
  split; [ lia | split; [ lia | ] ].
  apply (generate_cell_at 2 3 42 1 2); lia.
Defined.


(** Two records whose bands are no ties of the rounding. *)
Definition stored_records : list SpectralRecord :=
  [ mkSpectralRecord "plot A-1" 0 7 0.1 0.2 0.3 0.4 0.5 0.6 0.7 0.8 0.9;
    mkSpectralRecord "plot B-2" (-1) 12 0.12346 0.2 0.00004 0.4 0.5 0.60016 0.7 0.8 0.9 ].

Lemma stored_records_storable : Forall storable stored_records.
Proof.
  repeat constructor; cbn [plot_id row col String.length Z.of_nat];
    try lia; apply Z.ltb_lt; vm_compute; reflexivity.
Qed.

Lemma load_save_unquoted_run :
  Forall storable stored_records /\
  exists loaded,
    load_records_csv (save_records_csv stored_records) = Ok loaded /\
    Forall2 same_to_4_decimals stored_records loaded.
Proof.
  split; [ exact stored_records_storable | ].
  apply (load_save_unquoted stored_records stored_records_storable).
Defined.

Lemma generate_save_load_run :
  exists records,
    generate_spectral_grid 1 2 36 = Ok records /\
    exists loaded,
      load_records_csv (save_records_csv records) = Ok loaded /\
      Forall2 close_to_4_decimals records loaded.
Proof.
  eexists. split; [ vm_compute; reflexivity | ].
  apply (generate_save_load 1 2 36).
  vm_compute; reflexivity.
Defined.


Definition empty_world : World := mkWorld [] [] [].

Lemma visualize_ndvi_grid_run :
  let results : list NDVIResult :=
    [ (0%Z, 1%Z, "a"%string, Some 0.5); (5%Z, 0%Z, "b"%string, Some 0.1);
      (0%Z, 1%Z, "c"%string, None) ] in
  (0 < 2)%Z /\ (0 < 3)%Z /\
  exists grid,
    visualize_ndvi results 2 3 "ndvi_heatmap.png" empty_world
    = (Ok tt, mkWorld (objects empty_world) (stdout empty_world)
                      (files empty_world ++ [("ndvi_heatmap.png"%string, grid)])) /\
    List.length grid = Z.to_nat 2 /\
    Forall (fun line => List.length line = Z.to_nat 3) grid /\
    forall r c, (0 <= r < 2)%Z -> (0 <= c < 3)%Z ->
      cell_of grid r c = Some (last_value None results r c).
Proof.
  cbv zeta. split; [ lia | split; [ lia | ] ].
  apply visualize_ndvi_grid; lia.
Defined.




(** A file with the header alone, and one whose row number is no integer. *)
Definition header_only : string := crlf_text [ join "," header ].

Definition bad_fields : list string :=
  [ "0"; "0.1"; "0.2"; "0.3"; "0.4"; "0.5"; "0.6"; "0.7"; "0.8"; "0.9" ]%string.

Definition bad_row : string :=
  crlf_text (map (join ",") [ header; ("north" :: "one" :: bad_fields)%string ]).

Lemma ordinary_short s :
  string_exists (fun ch => negb (is_printable ch)) s = false ->
  (String.length s <= 20)%nat -> ordinary s.
Proof. intros H1 H2. split; [ exact H1 | lia ]. Qed.

Lemma main_failures_run :
  (plain_row header /\ Forall ordinary header /\
   main (mkSession empty_world (Some header_only))
   = (inr (PyExn ValueError), mkSession empty_world (Some header_only))) /\
  (is_letter "o" = true /\ List.length bad_fields = 10%nat /\
   Forall plain_row [ ("north" :: "one" :: bad_fields)%string ] /\
   Forall (Forall ordinary) [ ("north" :: "one" :: bad_fields)%string ] /\
   main (mkSession empty_world (Some bad_row))
   = (inr (PyExn ValueError), mkSession empty_world (Some bad_row))).
Proof.
  assert (H1 : Forall ordinary header)
    by (repeat constructor; apply ordinary_short; (reflexivity || (cbn; lia))).
  assert (H2 : Forall plain_row [ ("north" :: "one" :: bad_fields)%string ])
    by (repeat constructor; cbn; lia).
  assert (H3 : Forall (Forall ordinary) [ ("north" :: "one" :: bad_fields)%string ])
    by (repeat constructor; apply ordinary_short; (reflexivity || (cbn; lia))).
  split.
  - split; [ exact header_plain | split; [ exact H1 | ] ].
    exact (proj1 (main_failures empty_world) header header_plain H1).
  - split; [ reflexivity | split; [ reflexivity | split; [ exact H2 | split; [ exact H3 | ] ] ] ].
    exact (proj2 (main_failures empty_world) "north"%string "o"%char "ne"%string
             bad_fields [] eq_refl eq_refl H2 H3).
Defined.

Lemma generate_summary_defined_run :
  (0 < 2)%Z /\ (0 < 3)%Z /\
  exists records m l h,
    generate_spectral_grid 2 3 42 = Ok records /\
    List.length (valid_values (map ndvi_result records)) = Z.to_nat (2 * 3) /\
    mean_ndvi (field_summary (map ndvi_result records)) = Some m /\
    lo (field_summary (map ndvi_result records)) = Some l /\
    hi (field_summary (map ndvi_result records)) = Some h /\
    -1 < l /\ l <= m /\ m <= h /\ h < 1.
Proof.
  split; [ lia | split; [ lia | ] ].
  apply (generate_summary_defined 2 3 42); lia.
Defined.

Lemma save_load_save_run :
  Forall storable stored_records /\
  Forall nonnegative stored_records /\
  exists loaded,
    load_records_csv (save_records_csv stored_records) = Ok loaded /\
    Forall storable loaded /\
    save_records_csv loaded = save_records_csv stored_records /\
    load_records_csv (save_records_csv loaded) = Ok loaded.
Proof.
  assert (Hn : Forall nonnegative stored_records)
    by (repeat constructor; cbn; lra).
  split; [ exact stored_records_storable | split; [ exact Hn | ] ].
  apply (save_load_save stored_records stored_records_storable Hn).
Defined.


End Cases.
